(** * Networking in C: the select() multiplexing server and the hello handshake

    A shallow embedding of the three C programs of the repository:

    - [SelectServer]: the single-threaded [select] server (connection table,
      readiness set, accept and read dispatch);
    - [SimpleServer]: the blocking accept loop of [server.c], which writes
      the hello frame to every accepted connection;
    - [SimpleClient]: the connecting program, which reads the hello frame,
      converts it to host order and checks type and version.

    The operating system is an oracle: every system call takes its result
    from a record of answers, and every call the program makes is appended
    to a trace of events.  Global and local C variables that live across
    loop iterations are threaded explicitly. *)

From Stdlib Require Import ZArith List Lia Strings.Byte String Sorted.
From stdpp Require Import base tactics option list sets gmap.

Local Open Scope Z_scope.
Local Open Scope list_scope.

(** ** C constants and loops shared by the three programs *)

Definition EXIT_FAILURE : Z := 1.

(** [for (int i = 0; i < n; i++) body(i)] without [break] or [return]. *)
Definition for_loop {S : Type} (n : nat) (body : nat -> S -> S) (s : S) : S :=
  foldl (fun acc i => body i acc) s (seq 0 n).

(** What a [read(fd, buf, count)] call can answer: an error ([-1]) or the
    bytes the peer has delivered (none at all is end of file). *)
Inductive read_result :=
| RdErr
| RdData (bs : list byte).

(** [read] stores at most [count] bytes at the start of [buf], leaves the
    rest of [buf] as it was and returns how many bytes it stored. *)
Definition os_read (count : nat) (r : read_result) (buf : list byte)
  : Z * list byte :=
  match r with
  | RdErr => (-1, buf)
  | RdData bs =>
      let d := take count bs in
      (Z.of_nat (length d), d ++ drop (length d) buf)
  end.

(** The bytes [printf("%s", buf)] prints: up to the first NUL.  (If the
    array holds no NUL the C program reads past it; here the print stops
    at the end of the array.) *)
Fixpoint c_string (buf : list byte) : list byte :=
  match buf with
  | [] => []
  | b :: rest => if Byte.eqb b x00 then [] else b :: c_string rest
  end.

(** ** The select server *)

Module SelectServer.

Definition MAX_CLIENTS : nat := 256.
Definition PORT : Z := 8080.
Definition BUFF_SIZE : nat := 4096.

Inductive state_e := STATE_NEW | STATE_CONNECTED | STATE_DISCONNECTED.

Record clientstate_t := mk_clientstate {
  fd : Z;
  state : state_e;
  buffer : list byte
}.

Definition set_fd (v : Z) (c : clientstate_t) : clientstate_t :=
  mk_clientstate v (state c) (buffer c).
Definition set_state (v : state_e) (c : clientstate_t) : clientstate_t :=
  mk_clientstate (fd c) v (buffer c).
Definition set_buffer (v : list byte) (c : clientstate_t) : clientstate_t :=
  mk_clientstate (fd c) (state c) v.

(** [clientStates[i] = f(clientStates[i])]; every index the program uses
    is below [MAX_CLIENTS], the size of the array. *)
Definition update_slot (i : nat) (f : clientstate_t -> clientstate_t)
    (tbl : list clientstate_t) : list clientstate_t :=
  match tbl !! i with
  | Some c => <[i := f c]> tbl
  | None => tbl
  end.

(** The global array before [main] runs: static storage is zeroed. *)
Definition clientStates_static : list clientstate_t :=
  replicate MAX_CLIENTS (mk_clientstate 0 STATE_NEW (replicate BUFF_SIZE x00)).

Definition init_clients (tbl : list clientstate_t) : list clientstate_t :=
  for_loop MAX_CLIENTS
    (fun i t =>
       let t := update_slot i (set_fd (-1)) t in
       let t := update_slot i (set_state STATE_NEW) t in
       update_slot i (set_buffer (replicate BUFF_SIZE x00)) t)
    tbl.

(** The scan of [find_free_slot], [n] indices left starting at [i]. *)
Fixpoint find_free_slot_from (tbl : list clientstate_t) (n i : nat) : Z :=
  match n with
  | O => -1
  | S n' =>
      match tbl !! i with
      | Some c =>
          if bool_decide (fd c = -1) then Z.of_nat i
          else find_free_slot_from tbl n' (S i)
      | None => find_free_slot_from tbl n' (S i)
      end
  end.

Definition find_free_slot (tbl : list clientstate_t) : Z :=
  find_free_slot_from tbl MAX_CLIENTS 0.

(** *** System calls and what the operator sees *)

Inductive log_line :=
| LogListening (port : Z)
| LogNewConnection
| LogServerFull
| LogDisconnected
| LogReceived (text : list byte).

Inductive event :=
| EvSocket
| EvBind (fd : Z) (port : Z)
| EvListen (fd : Z) (backlog : Z)
| EvSelect (nfds : Z) (rfds wfds : gset Z)
| EvAccept (fd : Z)
| EvRead (fd : Z) (slot : nat) (count : nat)
| EvClose (fd : Z)
| EvPerror (msg : string)
| EvPrintf (line : log_line)
| EvExit (code : Z).

(** The answers of the operating system during one pass of [while (1)]:
    [sel_ready] is [None] when [select] fails and otherwise the set of
    descriptors that are readable; [acc_result] is what [accept] returns;
    [rd_result i] is what the [read] into slot [i] finds. *)
Record os_iter := mk_os_iter {
  sel_ready : option (gset Z);
  acc_result : Z;
  rd_result : nat -> read_result
}.

(** The answers to [socket], [bind] and [listen]. *)
Record os_setup := mk_os_setup {
  socket_result : Z;
  bind_result : Z;
  listen_result : Z
}.

(** The variables of [main] that outlive one pass of the loop, with the
    global table. *)
Record loop_state := mk_loop_state {
  clientStates : list clientstate_t;
  read_fds : gset Z;
  write_fds : gset Z;
  nfds : Z
}.

Inductive outcome :=
| Running (st : loop_state)
| Exited (code : Z).

(** Lines 78-94: [FD_ZERO], [FD_SET] of the listener, then of every slot
    in use, tracking [nfds]. *)
Definition add_slot (tbl : list clientstate_t) (i : nat)
    (acc : gset Z * Z) : gset Z * Z :=
  match tbl !! i with
  | Some c =>
      if bool_decide (fd c ≠ -1) then
        ({[fd c]} ∪ acc.1, if bool_decide (acc.2 ≤ fd c) then fd c + 1 else acc.2)
      else acc
  | None => acc
  end.

Definition build_read_fds (listen_fd : Z) (st : loop_state) : loop_state :=
  let rfds : gset Z := ∅ in
  let wfds : gset Z := ∅ in
  let rfds := {[listen_fd]} ∪ rfds in
  let n := listen_fd + 1 in
  let '(rfds, n) := for_loop MAX_CLIENTS (add_slot (clientStates st)) (rfds, n) in
  mk_loop_state (clientStates st) rfds wfds n.

(** Lines 111-128.  The boolean says whether the pass goes on to the
    client dispatch ([false] after the [continue]). *)
Definition dispatch_listener (listen_fd : Z) (rfds : gset Z) (o : os_iter)
    (tbl : list clientstate_t) : list clientstate_t * list event * bool :=
  if bool_decide (listen_fd ∈ rfds) then
    let conn_fd := acc_result o in
    if bool_decide (conn_fd = -1) then
      (tbl, [EvAccept listen_fd; EvPerror "accpet"], false)
    else
      let freeSlot := find_free_slot tbl in
      if bool_decide (freeSlot = -1) then
        (tbl,
         [EvAccept listen_fd; EvPrintf LogNewConnection;
          EvPrintf LogServerFull; EvClose conn_fd],
         true)
      else
        let t := update_slot (Z.to_nat freeSlot) (set_fd conn_fd) tbl in
        let t := update_slot (Z.to_nat freeSlot) (set_state STATE_CONNECTED) t in
        (t, [EvAccept listen_fd; EvPrintf LogNewConnection], true)
  else (tbl, [], true).

(** Lines 131-147: the body of the client loop at index [i]. *)
Definition client_body (rfds : gset Z) (o : os_iter) (i : nat)
    (acc : list clientstate_t * list event) : list clientstate_t * list event :=
  let '(tbl, tr) := acc in
  match tbl !! i with
  | Some currstate =>
      if bool_decide (fd currstate ≠ -1) && bool_decide (fd currstate ∈ rfds) then
        let '(bytes_read, buf) :=
          os_read BUFF_SIZE (rd_result o i) (buffer currstate) in
        let tbl := update_slot i (set_buffer buf) tbl in
        let tr := tr ++ [EvRead (fd currstate) i BUFF_SIZE] in
        if bool_decide (bytes_read ≤ 0) then
          let tbl := update_slot i (set_fd (-1)) tbl in
          let tbl := update_slot i (set_state STATE_DISCONNECTED) tbl in
          (tbl, tr ++ [EvClose (fd currstate); EvPrintf LogDisconnected])
        else
          (tbl, tr ++ [EvPrintf (LogReceived (c_string buf))])
      else (tbl, tr)
  | None => (tbl, tr)
  end.

(** Lines 130-148. *)
Definition dispatch_clients (rfds : gset Z) (o : os_iter)
    (tbl : list clientstate_t) : list clientstate_t * list event :=
  for_loop MAX_CLIENTS (client_body rfds o) (tbl, []).

(** One pass of [while (1)], lines 78-148. *)
Definition iteration (listen_fd : Z) (o : os_iter) (st : loop_state)
  : list event * outcome :=
  let st := build_read_fds listen_fd st in
  let call := EvSelect (nfds st) (read_fds st) (write_fds st) in
  match sel_ready o with
  | None => ([call; EvPerror "Select"; EvExit EXIT_FAILURE], Exited EXIT_FAILURE)
  | Some ready =>
      let rfds := read_fds st ∩ ready in
      let wfds := write_fds st ∩ ready in
      let '(tbl, tr1, go_on) := dispatch_listener listen_fd rfds o (clientStates st) in
      if go_on then
        let '(tbl, tr2) := dispatch_clients rfds o tbl in
        (call :: tr1 ++ tr2, Running (mk_loop_state tbl rfds wfds (nfds st)))
      else
        (call :: tr1, Running (mk_loop_state tbl rfds wfds (nfds st)))
  end.

(** The loop, for as many passes as the operating system has answers. *)
Fixpoint run (listen_fd : Z) (os : list os_iter) (st : loop_state)
  : list event * outcome :=
  match os with
  | [] => ([], Running st)
  | o :: os' =>
      match iteration listen_fd o st with
      | (tr, Running st') =>
          let '(tr', out) := run listen_fd os' st' in (tr ++ tr', out)
      | (tr, Exited code) => (tr, Exited code)
      end
  end.

(** Lines 53-75: the set-up before the loop.  The locals [read_fds],
    [write_fds] and [nfds] are not initialised by the program; [junk] is
    whatever they hold. *)
Definition setup (s : os_setup) (junk : gset Z * gset Z * Z)
  : list event * outcome * Z :=
  let tbl := init_clients clientStates_static in
  let listen_fd := socket_result s in
  if bool_decide (listen_fd = -1) then
    ([EvSocket; EvPerror "socket"; EvExit EXIT_FAILURE], Exited EXIT_FAILURE, listen_fd)
  else if bool_decide (bind_result s = -1) then
    ([EvSocket; EvBind listen_fd PORT; EvPerror "Bind"; EvExit EXIT_FAILURE],
     Exited EXIT_FAILURE, listen_fd)
  else if bool_decide (listen_result s = -1) then
    ([EvSocket; EvBind listen_fd PORT; EvListen listen_fd 10;
      EvPerror "listen"; EvExit EXIT_FAILURE],
     Exited EXIT_FAILURE, listen_fd)
  else
    ([EvSocket; EvBind listen_fd PORT; EvListen listen_fd 10;
      EvPrintf (LogListening PORT)],
     Running (mk_loop_state tbl junk.1.1 junk.1.2 junk.2), listen_fd).

Definition main (s : os_setup) (junk : gset Z * gset Z * Z) (os : list os_iter)
  : list event * outcome :=
  match setup s junk with
  | (tr, Running st, listen_fd) =>
      let '(tr', out) := run listen_fd os st in (tr ++ tr', out)
  | (tr, Exited code, _) => (tr, Exited code)
  end.

(** *** Vocabulary of the statements *)

(** A slot as [init_clients] leaves it. *)
Definition fresh_slot : clientstate_t :=
  mk_clientstate (-1) STATE_NEW (replicate BUFF_SIZE x00).

(** The number of slots whose descriptor is not the free sentinel. *)
Definition occupied (tbl : list clientstate_t) : nat :=
  length (filter (fun c => fd c ≠ -1) tbl).

(** The test of line 132-133 on a slot. *)
Definition is_ready (rfds : gset Z) (c : clientstate_t) : bool :=
  bool_decide (fd c ≠ -1) && bool_decide (fd c ∈ rfds).

(** The slots read into, in the order of the calls. *)
Definition read_slots (tr : list event) : list nat :=
  omap (fun e => match e with EvRead _ i _ => Some i | _ => None end) tr.



(** The number of [accept] calls. *)
Definition accept_calls (tr : list event) : nat :=
  length (omap (fun e => match e with EvAccept l => Some l | _ => None end) tr).

(** The descriptors closed, in the order of the calls. *)
Definition closed_fds (tr : list event) : list Z :=
  omap (fun e => match e with EvClose d => Some d | _ => None end) tr.

(** The texts handed to the data handler (the print of line 145). *)
Definition handled (tr : list event) : list (list byte) :=
  omap (fun e => match e with EvPrintf (LogReceived t) => Some t | _ => None end) tr.

(** What the body of the client loop does to slot [i] holding [c], and
    the calls it makes: a summary of [client_body], related to it by
    [client_body_serve] below. *)
Definition serve (rfds : gset Z) (o : os_iter) (i : nat) (c : clientstate_t)
  : clientstate_t * list event :=
  if is_ready rfds c then
    let r := os_read BUFF_SIZE (rd_result o i) (buffer c) in
    if bool_decide (r.1 ≤ 0) then
      (mk_clientstate (-1) STATE_DISCONNECTED r.2,
       [EvRead (fd c) i BUFF_SIZE; EvClose (fd c); EvPrintf LogDisconnected])
    else
      (mk_clientstate (fd c) (state c) r.2,
       [EvRead (fd c) i BUFF_SIZE; EvPrintf (LogReceived (c_string r.2))])
  else (c, []).

(** What every table the server reaches satisfies: the array keeps its
    size, and a slot in use is marked connected. *)
Definition table_inv (tbl : list clientstate_t) : Prop :=
  length tbl = MAX_CLIENTS ∧
  Forall (fun c => fd c ≠ -1 -> state c = STATE_CONNECTED) tbl.

(** The table once the client loop has passed the indices below [n]
    ([client_loop_prefix] below). *)
Definition served_upto (rfds : gset Z) (o : os_iter) (n : nat)
    (tbl : list clientstate_t) : list clientstate_t :=
  imap (fun j c => if bool_decide (j < n)%nat then (serve rfds o j c).1 else c) tbl.

Definition slot_events (rfds : gset Z) (o : os_iter)
    (tbl : list clientstate_t) (i : nat) : list event :=
  match tbl !! i with
  | Some c => (serve rfds o i c).2
  | None => []
  end.

(** The [read] calls of a trace: descriptor, slot and byte count. *)
Definition read_calls (tr : list event) : list (Z * nat * nat) :=
  omap (fun e => match e with EvRead d i n => Some (d, i, n) | _ => None end) tr.

(** Every buffer has the size of the array in the struct. *)
Definition well_sized (tbl : list clientstate_t) : Prop :=
  Forall (fun c => length (buffer c) = BUFF_SIZE) tbl.

(** 1 for a slot in use, 0 for a free one. *)
Definition in_use (c : clientstate_t) : nat :=
  if bool_decide (fd c ≠ -1) then 1%nat else 0%nat.


End SelectServer.

(** ** The hello frame: byte order and struct layout *)

Module Proto.

(** The byte order of the machine the program runs on. *)
Inductive endianness := LittleEndian | BigEndian.

Definition Z_of_byte (b : byte) : Z := Z.of_N (Byte.to_N b).

Definition byte_of_Z (z : Z) : byte :=
  match Byte.of_N (Z.to_N (z mod 256)) with
  | Some b => b
  | None => x00
  end.

(** The [w] low bytes of [v], least significant first. *)
Fixpoint le_bytes (w : nat) (v : Z) : list byte :=
  match w with
  | O => []
  | S w' => byte_of_Z (v mod 256) :: le_bytes w' (v / 256)
  end.

Definition be_bytes (w : nat) (v : Z) : list byte := rev (le_bytes w v).

Fixpoint le_value (bs : list byte) : Z :=
  match bs with
  | [] => 0
  | b :: rest => Z_of_byte b + 256 * le_value rest
  end.

Definition be_value (bs : list byte) : Z := le_value (rev bs).

(** An unsigned integer of [w] bytes as the machine keeps it in memory. *)
Definition host_bytes (e : endianness) (w : nat) (v : Z) : list byte :=
  match e with
  | LittleEndian => le_bytes w v
  | BigEndian => be_bytes w v
  end.

Definition host_value (e : endianness) (bs : list byte) : Z :=
  match e with
  | LittleEndian => le_value bs
  | BigEndian => be_value bs
  end.

(** [*(uintW_t * )(buf + off) = v] and [*(uintW_t * )(buf + off)]. *)
Definition store (e : endianness) (off w : nat) (v : Z) (buf : list byte)
  : list byte :=
  take off buf ++ host_bytes e w v ++ drop (off + w) buf.

Definition load (e : endianness) (off w : nat) (buf : list byte) : Z :=
  host_value e (take w (drop off buf)).

(** [htonl], [ntohl], [htons], [ntohs]: the value whose bytes in memory
    are the bytes of the argument, most significant first. *)
Definition htonl (e : endianness) (v : Z) : Z := host_value e (be_bytes 4 v).
Definition ntohl (e : endianness) (v : Z) : Z := be_value (host_bytes e 4 v).
Definition htons (e : endianness) (v : Z) : Z := host_value e (be_bytes 2 v).
Definition ntohs (e : endianness) (v : Z) : Z := be_value (host_bytes e 2 v).

(** The conversion of a [uint32_t] to [int]. *)
Definition to_int (v : Z) : Z :=
  if v mod 2 ^ 32 <? 2 ^ 31 then v mod 2 ^ 32 else v mod 2 ^ 32 - 2 ^ 32.

(** [typedef enum { PROTO_HELLO } proto_type_e]. *)
Definition PROTO_HELLO : Z := 0.

(** [proto_hdr_t] where [int] and the enum take 4 bytes aligned on 4 and
    [unsigned short] takes 2: [type] at offset 0, [len] at offset 4, two
    bytes of padding at the end. *)
Definition sizeof_int : nat := 4.
Definition offsetof_type : nat := 0.
Definition offsetof_len : nat := 4.
Definition sizeof_proto_hdr_t : nat := 8.

Inductive log_line :=
| LogUsage
| LogClientSize (n : Z)
| LogProtocolMismatch
| LogVersion (v : Z)
| LogVersionMismatch
| LogConnectedV1.

Inductive event :=
| EvSocket
| EvBind (fd : Z) (port : Z)
| EvListen (fd : Z) (backlog : Z)
| EvAccept (fd : Z)
| EvConnect (fd : Z) (port : Z)
| EvRead (fd : Z) (count : nat)
| EvWrite (fd : Z) (bs : list byte)
| EvClose (fd : Z)
| EvPerror (msg : string)
| EvPrintf (line : log_line)
| EvFprintf (line : log_line).

(** The bytes handed to [write], in the order of the calls. *)
Definition written (tr : list event) : list (list byte) :=
  omap (fun e => match e with EvWrite _ bs => Some bs | _ => None end) tr.

(** The exit status the parent sees when [main] returns [ret]. *)
Definition exit_status (ret : Z) : Z := Z.land ret 255.

(** A frame on the wire: an 8-byte header (type, length, padding) and a
    4-byte payload, integers most significant byte first. *)
Definition frame (type len payload : Z) : list byte :=
  be_bytes 4 type ++ be_bytes 2 len ++ [x00; x00] ++ be_bytes 4 payload.

(** The descriptors closed, the number of [accept] calls and the [read]
    calls (descriptor and byte count) of a trace. *)
Definition closed_fds (tr : list event) : list Z :=
  omap (fun e => match e with EvClose d => Some d | _ => None end) tr.

Definition accept_calls (tr : list event) : nat :=
  length (omap (fun e => match e with EvAccept l => Some l | _ => None end) tr).

Definition read_calls (tr : list event) : list (Z * nat) :=
  omap (fun e => match e with EvRead d n => Some (d, n) | _ => None end) tr.

End Proto.

(** ** [server.c]: accept, write the hello frame, close *)

Module SimpleServer.
Import Proto.

Definition handle_client (e : endianness) (cfd : Z) : list event :=
  let buf := replicate 4096 x00 in
  let hdr := 0%nat in
  let buf := store e (hdr + offsetof_type) 4 (htonl e PROTO_HELLO) buf in
  let real_len := sizeof_int in
  let buf := store e (hdr + offsetof_len) 2 (htons e (Z.of_nat real_len)) buf in
  let data := (hdr + sizeof_proto_hdr_t)%nat in
  let buf := store e data 4 (htonl e 1) buf in
  [EvWrite cfd (take (sizeof_proto_hdr_t + real_len) (drop hdr buf))].

(** The accept loop, for as many answers of [accept] as are given: each
    answer is the descriptor and the address length [accept] stores. *)
Fixpoint accept_loop (e : endianness) (server_socket : Z) (accepts : list (Z * Z))
  : list event * option Z :=
  match accepts with
  | [] => ([], None)
  | (client_fd, clientSize) :: rest =>
      if bool_decide (client_fd = -1) then
        ([EvAccept server_socket; EvPrintf (LogClientSize clientSize);
          EvPerror "accept"; EvClose server_socket],
         Some (-1))
      else
        let '(tr, ret) := accept_loop e server_socket rest in
        ([EvAccept server_socket; EvPrintf (LogClientSize clientSize)]
         ++ handle_client e client_fd ++ [EvClose client_fd] ++ tr,
         ret)
  end.

(** [main]: the trace and the value returned ([None] while the loop is
    still running when the answers run out).  The test on the result of
    [listen] has an empty body in the source: [after_listen] is what it
    adds to the trace. *)
Definition main (e : endianness) (socket_result bind_result listen_result : Z)
    (accepts : list (Z * Z)) : list event * option Z :=
  let server_socket := socket_result in
  if bool_decide (server_socket = -1) then
    ([EvSocket; EvPerror "socket"], Some (-1))
  else if bool_decide (bind_result = -1) then
    ([EvSocket; EvBind server_socket 5555; EvPerror "bind"; EvClose server_socket],
     Some (-1))
  else
    let BACKLOG := 0 in
    let after_listen : list event :=
      if bool_decide (listen_result = -1) then [] else [] in
    let '(tr, ret) := accept_loop e server_socket accepts in
    ([EvSocket; EvBind server_socket 5555; EvListen server_socket BACKLOG]
     ++ after_listen ++ tr,
     ret).

End SimpleServer.

(** ** The client: connect, read the hello frame, check it *)

Module SimpleClient.
Import Proto.

(** Lines 18-25: the buffer after the read and the three conversions to
    host order. *)
Definition received (e : endianness) (rx : read_result) : list byte :=
  let buf := replicate 4096 x00 in
  let buf := (os_read (sizeof_proto_hdr_t + sizeof_int) rx buf).2 in
  let hdr := 0%nat in
  let buf := store e (hdr + offsetof_type) 4
               (ntohl e (load e (hdr + offsetof_type) 4 buf)) buf in
  let buf := store e (hdr + offsetof_len) 2
               (ntohs e (load e (hdr + offsetof_len) 2 buf)) buf in
  let data := (hdr + sizeof_proto_hdr_t)%nat in
  store e data 4 (ntohl e (load e data 4 buf)) buf.

Definition hdr_type (e : endianness) (buf : list byte) : Z :=
  load e offsetof_type 4 buf.
Definition hdr_len (e : endianness) (buf : list byte) : Z :=
  load e offsetof_len 2 buf.
Definition hdr_data (e : endianness) (buf : list byte) : Z :=
  to_int (load e sizeof_proto_hdr_t 4 buf).

Definition handle_client (e : endianness) (fd : Z) (rx : read_result)
  : list event :=
  let buf := received e rx in
  let call := EvRead fd (sizeof_proto_hdr_t + sizeof_int) in
  if bool_decide (hdr_type e buf ≠ PROTO_HELLO) then
    [call; EvPrintf LogProtocolMismatch]
  else if bool_decide (hdr_data e buf ≠ 1) then
    [call; EvPrintf (LogVersion (hdr_data e buf)); EvPrintf LogVersionMismatch]
  else
    [call; EvPrintf LogConnectedV1].

(** [main]: the trace and the value returned.  [main] ends without a
    [return] after the handshake, which returns 0. *)
Definition main (e : endianness) (argc : Z) (socket_result connect_result : Z)
    (rx : read_result) : list event * Z :=
  if bool_decide (argc < 2) then
    ([EvFprintf LogUsage], -1)
  else
    let fd := socket_result in
    if bool_decide (fd = -1) then
      ([EvSocket; EvPerror "socket"], -1)
    else if bool_decide (connect_result = -1) then
      ([EvSocket; EvConnect fd 5555; EvPerror "connect"; EvClose fd], 0)
    else
      ([EvSocket; EvConnect fd 5555] ++ handle_client e fd rx ++ [EvClose fd], 0).

(** The twelve bytes the client works on: what the read delivered, cut at
    twelve bytes or completed with zeros. *)
Definition wire (rx : read_result) : list byte :=
  match rx with
  | RdErr => replicate 12 x00
  | RdData bs => take 12 (bs ++ replicate 12 x00)
  end.

End SimpleClient.

(** ** The frame of the handshake as the specification prints it *)

Module HelloScenario.

Definition ten_bytes : list byte :=
  [x00; x00; x00; x00; x00; x04; x00; x00; x00; x01].

End HelloScenario.

(** ** Concrete runs of the select server, used to exercise the statements *)

Module Scenario.
Import SelectServer.

(** [socket] answers descriptor 3, [bind] and [listen] succeed. *)
Definition setup_ok : os_setup := mk_os_setup 3 0 0.
Definition no_junk : gset Z * gset Z * Z := (∅, ∅, 0).

(** A pass in which only the listener is readable and [accept] answers [c]. *)
Definition connect (c : Z) : os_iter :=
  mk_os_iter (Some {[3]}) c (fun _ => RdErr).

(** [MAX_CLIENTS] connections in a row: descriptors 4, 5, ... *)
Definition fill_table : list os_iter :=
  map (fun i => connect (4 + Z.of_nat i)) (seq 0 MAX_CLIENTS).

Definition state_of (r : list event * outcome) : loop_state :=
  match r.2 with
  | Running st => st
  | Exited _ => mk_loop_state [] ∅ ∅ 0
  end.

(** One client, descriptor 4, sits in slot 0. *)
Definition one_client : loop_state :=
  state_of (main setup_ok no_junk [connect 4]).

Definition hi : list byte := [x68; x69].


(** Only descriptor 4 is readable; the read finds [r]. *)
Definition client_reads (r : read_result) : os_iter :=
  mk_os_iter (Some {[4]}) (-1) (fun _ => r).

(** The listener and descriptor 4 are readable, [accept] answers 5. *)
Definition both_ready : os_iter :=
  mk_os_iter (Some {[3; 4]}) 5 (fun _ => RdData hi).

Definition hello : list byte := [x48; x45; x4c; x4c; x4f].
Definition ab : list byte := [x61; x62].

(** A client connects, sends HELLO and closes; the next client is given
    the descriptor and the slot of the first. *)
Definition reuse_passes : list os_iter :=
  [connect 4; client_reads (RdData hello); client_reads (RdData []); connect 4].
Definition reuse_run : list event * outcome := main setup_ok no_junk reuse_passes.
Definition reused : loop_state := state_of reuse_run.

(** The client in slot 0 closes: the read on descriptor 4 finds nothing. *)
Definition release_run : list event * outcome :=
  iteration 3 (client_reads (RdData [])) one_client.
Definition released : loop_state := state_of release_run.

(** The second client sends two bytes. *)
Definition second_read : list event * outcome :=
  iteration 3 (client_reads (RdData ab)) reused.

(** The table in which the first [k] slots hold descriptors 4, 5, ... *)
Definition filled (k : nat) : list clientstate_t :=
  imap (fun j c =>
          if bool_decide (j < k)%nat
          then mk_clientstate (4 + Z.of_nat j) STATE_CONNECTED (buffer c)
          else c)
    (replicate MAX_CLIENTS fresh_slot).

Definition full_run : list event * outcome := main setup_ok no_junk fill_table.
Definition full_state : loop_state := state_of full_run.

End Scenario.

(** * Properties of the select server *)

(** The proofs never depend on the values of the two sizes. *)
#[local] Opaque SelectServer.MAX_CLIENTS SelectServer.BUFF_SIZE.

Section ForLoop.
Context {S : Type}.
Implicit Types (body : nat -> S -> S) (s : S).

Lemma for_loop_0 body s : for_loop 0 body s = s.
Proof. reflexivity. Qed.

Lemma for_loop_S n body s :
  for_loop (Datatypes.S n) body s = body n (for_loop n body s).
Proof. unfold for_loop. rewrite seq_S, foldl_app. reflexivity. Qed.

(** Loop invariants: [P i] holds before the pass at index [i]. *)
Lemma for_loop_inv (P : nat -> S -> Prop) n body s :
  P 0%nat s ->
  (forall i x, (i < n)%nat -> P i x -> P (Datatypes.S i) (body i x)) ->
  P n (for_loop n body s).
Proof.
  intros H0 Hstep. induction n as [|n IH]; [exact H0|].
  rewrite for_loop_S. apply Hstep; [lia|]. apply IH.
  intros i x Hi. apply Hstep. lia.
Qed.
End ForLoop.

Section Table.
Import SelectServer.
Implicit Types (tbl : list clientstate_t) (c : clientstate_t) (i j : nat).

Lemma length_update_slot i f tbl : length (update_slot i f tbl) = length tbl.
Proof. unfold update_slot. destruct (tbl !! i); [apply length_insert|done]. Qed.

Lemma update_slot_Some i f tbl c :
  tbl !! i = Some c -> update_slot i f tbl = <[i := f c]> tbl.
Proof. unfold update_slot. intros ->. reflexivity. Qed.

Lemma lookup_update_slot_eq i f tbl c :
  tbl !! i = Some c -> update_slot i f tbl !! i = Some (f c).
Proof.
  intros H. rewrite (update_slot_Some _ _ _ _ H).
  apply list_lookup_insert_eq. eapply lookup_lt_Some, H.
Qed.

Lemma lookup_update_slot_ne i j f tbl :
  i ≠ j -> update_slot i f tbl !! j = tbl !! j.
Proof.
  intros H. unfold update_slot. destruct (tbl !! i); [|done].
  by apply list_lookup_insert_ne.
Qed.

Lemma insert_insert_same {A} (l : list A) i (x y : A) :
  <[i := x]> (<[i := y]> l) = <[i := x]> l.
Proof.
  apply list_eq. intros j. rewrite !list_lookup_insert, length_insert.
  repeat case_decide; naive_solver.
Qed.
End Table.

Section ClientDispatch.
Import SelectServer.
Implicit Types (tbl : list clientstate_t) (c : clientstate_t) (i j n : nat).
Variables (rfds : gset Z) (o : os_iter).

Lemma client_body_serve i tbl tr c :
  tbl !! i = Some c ->
  client_body rfds o i (tbl, tr)
  = (<[i := (serve rfds o i c).1]> tbl, tr ++ (serve rfds o i c).2).
Proof.
  intros Hi. pose proof (lookup_lt_Some _ _ _ Hi) as Hlt.
  unfold client_body, serve, is_ready. rewrite Hi.
  destruct (bool_decide (fd c ≠ -1) && bool_decide (fd c ∈ rfds)).
  2:{ rewrite list_insert_id by done. by rewrite app_nil_r. }
  destruct (os_read BUFF_SIZE (rd_result o i) (buffer c)) as [k buf] eqn:Hr.
  cbn [fst snd].
  rewrite (update_slot_Some _ _ _ _ Hi).
  destruct (bool_decide (k ≤ 0)).
  - rewrite (update_slot_Some i (set_fd (-1)) _ (set_buffer buf c))
      by (by apply list_lookup_insert_eq).
    rewrite insert_insert_same.
    rewrite (update_slot_Some i (set_state STATE_DISCONNECTED) _
               (set_fd (-1) (set_buffer buf c)))
      by (by apply list_lookup_insert_eq).
    rewrite insert_insert_same, <- app_assoc. reflexivity.
  - rewrite <- app_assoc. reflexivity.
Qed.

Lemma lookup_served_upto n tbl j :
  served_upto rfds o n tbl !! j
  = (fun c => if bool_decide (j < n)%nat then (serve rfds o j c).1 else c) <$> tbl !! j.
Proof. unfold served_upto. apply list_lookup_imap. Qed.

Lemma length_served_upto n tbl : length (served_upto rfds o n tbl) = length tbl.
Proof. unfold served_upto. apply length_imap. Qed.

Lemma slot_events_Some tbl i c :
  tbl !! i = Some c -> slot_events rfds o tbl i = (serve rfds o i c).2.
Proof. unfold slot_events. intros ->. reflexivity. Qed.

(** The client loop after [n] indices. *)
Lemma client_loop_prefix tbl n :
  (n ≤ length tbl)%nat ->
  for_loop n (client_body rfds o) (tbl, [])
  = (served_upto rfds o n tbl, concat (map (slot_events rfds o tbl) (seq 0 n))).
Proof.
  induction n as [|n IH]; intros Hn.
  - rewrite for_loop_0. f_equal. apply list_eq. intros j.
    rewrite lookup_served_upto. destruct (tbl !! j); [|done].
    cbn. rewrite bool_decide_eq_false_2 by lia. done.
  - rewrite for_loop_S, IH by lia.
    destruct (lookup_lt_is_Some_2 tbl n ltac:(lia)) as [c Hc].
    erewrite client_body_serve.
    2:{ rewrite lookup_served_upto, Hc. cbn.
        rewrite bool_decide_eq_false_2 by lia. reflexivity. }
    f_equal.
    + apply list_eq. intros j.
      rewrite list_lookup_insert, length_served_upto, !lookup_served_upto.
      case_decide as Hd.
      * destruct Hd as [<- _]. rewrite Hc. cbn.
        rewrite bool_decide_eq_true_2 by lia. done.
      * destruct (tbl !! j) eqn:Hj; [|done]. cbn.
        assert (n ≠ j) by (intros ->; apply Hd; split; [done|lia]).
        f_equal. repeat case_bool_decide; try lia; done.
    + rewrite seq_S, map_app, concat_app. cbn [map concat Nat.add].
      rewrite app_nil_r. by rewrite (slot_events_Some _ _ _ Hc).
Qed.

Lemma dispatch_clients_eq tbl :
  length tbl = MAX_CLIENTS ->
  dispatch_clients rfds o tbl
  = (served_upto rfds o MAX_CLIENTS tbl,
     concat (map (slot_events rfds o tbl) (seq 0 MAX_CLIENTS))).
Proof. intros H. unfold dispatch_clients. apply client_loop_prefix. lia. Qed.

End ClientDispatch.

Section FreeSlot.
Import SelectServer.
Implicit Types (tbl : list clientstate_t) (c : clientstate_t) (i j n : nat).

(** The scan answers [-1] when every slot of the range is in use, and
    otherwise the lowest free index of the range. *)
Lemma find_free_slot_from_spec tbl n i :
  (find_free_slot_from tbl n i = -1 ∧
   ∀ j c, (i ≤ j < i + n)%nat -> tbl !! j = Some c -> fd c ≠ -1)
  ∨ (∃ k c, find_free_slot_from tbl n i = Z.of_nat k ∧ (i ≤ k < i + n)%nat ∧
            tbl !! k = Some c ∧ fd c = -1 ∧
            ∀ j c', (i ≤ j < k)%nat -> tbl !! j = Some c' -> fd c' ≠ -1).
Proof.
  revert i. induction n as [|n IH]; intros i; cbn [find_free_slot_from].
  - left. split; [done|]. intros; lia.
  - destruct (tbl !! i) as [c|] eqn:Hi.
    + case_bool_decide as Hfd.
      * right. exists i, c. repeat split; try done; try lia; intros; lia.
      * destruct (IH (S i)) as [[-> Hall]|(k & c' & -> & Hk & Hkc & Hfree & Hlow)].
        -- left. split; [done|]. intros j c' Hj Hjc.
           destruct (decide (j = i)) as [->|]; [congruence|].
           apply (Hall j); [lia|done].
        -- right. exists k, c'. repeat split; try done; try lia.
           intros j c'' Hj Hjc.
           destruct (decide (j = i)) as [->|]; [congruence|].
           apply (Hlow j); [lia|done].
    + destruct (IH (S i)) as [[-> Hall]|(k & c' & -> & Hk & Hkc & Hfree & Hlow)].
      * left. split; [done|]. intros j c' Hj Hjc.
        destruct (decide (j = i)) as [->|]; [congruence|].
        apply (Hall j); [lia|done].
      * right. exists k, c'. repeat split; try done; try lia.
        intros j c'' Hj Hjc.
        destruct (decide (j = i)) as [->|]; [congruence|].
        apply (Hlow j); [lia|done].
Qed.

Lemma find_free_slot_spec tbl :
  length tbl = MAX_CLIENTS ->
  (find_free_slot tbl = -1 ∧ Forall (fun c => fd c ≠ -1) tbl)
  ∨ (∃ k c, find_free_slot tbl = Z.of_nat k ∧ (k < MAX_CLIENTS)%nat ∧
            tbl !! k = Some c ∧ fd c = -1 ∧
            ∀ j c', (j < k)%nat -> tbl !! j = Some c' -> fd c' ≠ -1).
Proof.
  intros Hlen. unfold find_free_slot.
  destruct (find_free_slot_from_spec tbl MAX_CLIENTS 0)
    as [[-> Hall]|(k & c & -> & Hk & Hkc & Hfree & Hlow)].
  - left. split; [done|]. apply Forall_lookup. intros j c Hj.
    apply (Hall j); [|done]. apply lookup_lt_Some in Hj. lia.
  - right. exists k, c. repeat split; try done; try lia.
    intros j c' Hj. apply Hlow. lia.
Qed.

Lemma occupied_le tbl : (occupied tbl ≤ length tbl)%nat.
Proof. unfold occupied. apply length_filter. Qed.

Lemma occupied_full tbl :
  occupied tbl = length tbl <-> Forall (fun c => fd c ≠ -1) tbl.
Proof.
  unfold occupied. induction tbl as [|c tbl IH]; [by split|].
  rewrite filter_cons. pose proof (length_filter (fun c => fd c ≠ -1) tbl).
  destruct (decide (fd c ≠ -1)) as [Hc|Hc]; cbn [length].
  - rewrite Forall_cons. split.
    + intros Heq. split; [done|]. apply IH. lia.
    + intros [_ Hall]. f_equal. by apply IH.
  - split; [lia|]. intros Hall. apply Forall_cons in Hall. tauto.
Qed.

Lemma find_free_slot_full tbl :
  length tbl = MAX_CLIENTS -> occupied tbl = MAX_CLIENTS -> find_free_slot tbl = -1.
Proof.
  intros Hlen Hocc.
  destruct (find_free_slot_spec tbl Hlen) as [[H _]|(k & c & _ & _ & Hkc & Hfree & _)];
    [done|].
  rewrite <- Hlen in Hocc. apply occupied_full in Hocc.
  by apply (Forall_lookup_1 _ _ _ _ Hocc) in Hkc.
Qed.

Lemma init_clients_fresh tbl :
  length tbl = MAX_CLIENTS -> init_clients tbl = replicate MAX_CLIENTS fresh_slot.
Proof.
  intros Hlen. unfold init_clients.
  match goal with |- for_loop _ ?b _ = _ => set (body := b) end.
  assert (length (for_loop MAX_CLIENTS body tbl) = MAX_CLIENTS ∧
          ∀ j, (j < MAX_CLIENTS)%nat ->
               for_loop MAX_CLIENTS body tbl !! j = Some fresh_slot) as [HL HF].
  { apply (for_loop_inv
             (fun n t => length t = MAX_CLIENTS ∧
                         ∀ j, (j < n)%nat -> t !! j = Some fresh_slot)).
    - split; [done|]. intros; lia.
    - intros i t Hi [HL HF]. unfold body.
      destruct (lookup_lt_is_Some_2 t i ltac:(lia)) as [c Hc].
      split; [by rewrite !length_update_slot|].
      intros j Hj. destruct (decide (j = i)) as [->|Hne].
      + rewrite (lookup_update_slot_eq i _ _
                   (set_state STATE_NEW (set_fd (-1) c))); [reflexivity|].
        rewrite (lookup_update_slot_eq i _ _ (set_fd (-1) c)); [reflexivity|].
        by rewrite (lookup_update_slot_eq i _ _ c).
      + rewrite !lookup_update_slot_ne by done. apply HF. lia. }
  apply list_eq. intros j. destruct (decide (j < MAX_CLIENTS)%nat).
  - rewrite HF by done. symmetry. by apply lookup_replicate_2.
  - rewrite lookup_ge_None_2 by lia. symmetry.
    apply lookup_replicate_None. lia.
Qed.

End FreeSlot.

Section QuerySet.
Import SelectServer.
Implicit Types (tbl : list clientstate_t) (c : clientstate_t) (st : loop_state).

Lemma add_slot_loop listen_fd tbl n :
  (∀ x, x ∈ (for_loop n (add_slot tbl) ({[listen_fd]} ∪ ∅, listen_fd + 1)).1 <->
        x = listen_fd ∨
        ∃ i c, (i < n)%nat ∧ tbl !! i = Some c ∧ fd c ≠ -1 ∧ x = fd c)
  ∧ (∀ x, x ∈ (for_loop n (add_slot tbl) ({[listen_fd]} ∪ ∅, listen_fd + 1)).1 ->
          x < (for_loop n (add_slot tbl) ({[listen_fd]} ∪ ∅, listen_fd + 1)).2).
Proof.
  induction n as [|n [Hmem Hmax]].
  - rewrite for_loop_0. cbn [fst snd]. split.
    + intros x. rewrite elem_of_union, elem_of_singleton, elem_of_empty.
      split; [intros [->|[]]; by left|].
      intros [->|(i & c & Hi & _)]; [by left|lia].
    + intros x. rewrite elem_of_union, elem_of_singleton, elem_of_empty.
      intros [->|[]]. lia.
  - rewrite for_loop_S.
    destruct (for_loop n (add_slot tbl) ({[listen_fd]} ∪ ∅, listen_fd + 1)) as [s m].
    cbn [fst snd] in *. unfold add_slot.
    assert (∀ x, (x = listen_fd ∨
                  ∃ i c, (i < n)%nat ∧ tbl !! i = Some c ∧ fd c ≠ -1 ∧ x = fd c)
                 -> x = listen_fd ∨
                    ∃ i c, (i < S n)%nat ∧ tbl !! i = Some c ∧ fd c ≠ -1 ∧ x = fd c)
      as Hup.
    { intros x [->|(j & c' & Hj & Hjc & Hne & ->)]; [by left|].
      right. exists j, c'. repeat split; try done. lia. }
    assert (∀ x, (x = listen_fd ∨
                  ∃ i c, (i < S n)%nat ∧ tbl !! i = Some c ∧ fd c ≠ -1 ∧ x = fd c)
                 -> (∃ c, tbl !! n = Some c ∧ fd c ≠ -1 ∧ x = fd c) ∨
                    x = listen_fd ∨
                    ∃ i c, (i < n)%nat ∧ tbl !! i = Some c ∧ fd c ≠ -1 ∧ x = fd c)
      as Hdown.
    { intros x [->|(j & c' & Hj & Hjc & Hne & ->)]; [by right; left|].
      destruct (decide (j = n)) as [->|].
      - left. by exists c'.
      - right. right. exists j, c'. repeat split; try done. lia. }
    destruct (tbl !! n) as [c|] eqn:Hc.
    + case_bool_decide as Hfd; cbn [fst snd].
      * split.
        -- intros x. rewrite elem_of_union, elem_of_singleton, Hmem. split.
           ++ intros [->|H]; [|by apply Hup].
              right. exists n, c. repeat split; try done. lia.
           ++ intros H. destruct (Hdown _ H) as [(c' & [= <-] & _ & ->)|H'];
                [by left|by right].
        -- intros x. rewrite elem_of_union, elem_of_singleton.
           intros [->|Hx]; case_bool_decide; try lia.
           ++ specialize (Hmax _ Hx). lia.
           ++ by apply Hmax.
      * split; [|done]. intros x. rewrite Hmem. split; [apply Hup|].
        intros H. destruct (Hdown _ H) as [(c' & [= <-] & Hne & _)|H']; done.
    + split; [|done]. intros x. rewrite Hmem. split; [apply Hup|].
      intros H. destruct (Hdown _ H) as [(c' & [=] & _)|H']; done.
Qed.

Lemma build_read_fds_spec listen_fd st :
  clientStates (build_read_fds listen_fd st) = clientStates st ∧
  write_fds (build_read_fds listen_fd st) = ∅ ∧
  (∀ x, x ∈ read_fds (build_read_fds listen_fd st) <->
        x = listen_fd ∨
        ∃ i c, (i < MAX_CLIENTS)%nat ∧ clientStates st !! i = Some c ∧
               fd c ≠ -1 ∧ x = fd c) ∧
  (∀ x, x ∈ read_fds (build_read_fds listen_fd st) ->
        x < nfds (build_read_fds listen_fd st)).
Proof.
  unfold build_read_fds.
  pose proof (add_slot_loop listen_fd (clientStates st) MAX_CLIENTS) as [Hmem Hmax].
  destruct (for_loop MAX_CLIENTS (add_slot (clientStates st))
              ({[listen_fd]} ∪ ∅, listen_fd + 1)) as [s m].
  cbn [clientStates write_fds read_fds nfds fst snd] in *.
  repeat split; [apply Hmem..|apply Hmax].
Qed.

(** The set handed to [select] is a function of the listener and the
    table alone. *)
Lemma build_read_fds_table listen_fd st st2 :
  clientStates st2 = clientStates st ->
  build_read_fds listen_fd st2 = build_read_fds listen_fd st.
Proof. unfold build_read_fds. intros ->. reflexivity. Qed.

End QuerySet.

Section Listener.
Import SelectServer.
Implicit Types (tbl : list clientstate_t) (c : clientstate_t).

Lemma accept_store tbl k c conn :
  tbl !! k = Some c ->
  update_slot k (set_state STATE_CONNECTED) (update_slot k (set_fd conn) tbl)
  = <[k := mk_clientstate conn STATE_CONNECTED (buffer c)]> tbl.
Proof.
  intros Hk. pose proof (lookup_lt_Some _ _ _ Hk).
  rewrite (update_slot_Some k (set_fd conn) tbl c Hk).
  rewrite (update_slot_Some k _ _ (set_fd conn c))
    by (by apply list_lookup_insert_eq).
  by rewrite insert_insert_same.
Qed.

(** The four ways through lines 111-128. *)
Lemma dispatch_listener_cases listen_fd rfds o tbl :
  length tbl = MAX_CLIENTS ->
  ((listen_fd ∉ rfds) ∧ dispatch_listener listen_fd rfds o tbl = (tbl, [], true))
  ∨ (listen_fd ∈ rfds ∧ acc_result o = -1 ∧
     dispatch_listener listen_fd rfds o tbl
     = (tbl, [EvAccept listen_fd; EvPerror "accpet"], false))
  ∨ (listen_fd ∈ rfds ∧ acc_result o ≠ -1 ∧ find_free_slot tbl = -1 ∧
     Forall (fun c => fd c ≠ -1) tbl ∧
     dispatch_listener listen_fd rfds o tbl
     = (tbl, [EvAccept listen_fd; EvPrintf LogNewConnection;
              EvPrintf LogServerFull; EvClose (acc_result o)], true))
  ∨ (∃ k c, listen_fd ∈ rfds ∧ acc_result o ≠ -1 ∧
            find_free_slot tbl = Z.of_nat k ∧ (k < MAX_CLIENTS)%nat ∧
            tbl !! k = Some c ∧ fd c = -1 ∧
            (∀ j c', (j < k)%nat -> tbl !! j = Some c' -> fd c' ≠ -1) ∧
            dispatch_listener listen_fd rfds o tbl
            = (<[k := mk_clientstate (acc_result o) STATE_CONNECTED (buffer c)]> tbl,
               [EvAccept listen_fd; EvPrintf LogNewConnection], true)).
Proof.
  intros Hlen. unfold dispatch_listener.
  case_bool_decide as Hl; [|by left].
  case_bool_decide as Ha; [by right; left|].
  destruct (find_free_slot_spec tbl Hlen)
    as [[Hf Hall]|(k & c & Hf & Hk & Hkc & Hfree & Hlow)]; rewrite Hf.
  - right. right. left. by rewrite bool_decide_eq_true_2.
  - right. right. right. exists k, c.
    rewrite bool_decide_eq_false_2 by lia.
    rewrite Nat2Z.id, (accept_store _ _ _ _ Hkc). done.
Qed.

Lemma dispatch_listener_inv listen_fd rfds o tbl :
  table_inv tbl -> table_inv (dispatch_listener listen_fd rfds o tbl).1.1.
Proof.
  intros [Hlen Hall].
  destruct (dispatch_listener_cases listen_fd rfds o tbl Hlen)
    as [[_ ->]|[(_ & _ & ->)|[(_ & _ & _ & _ & ->)|(k & c & _ & _ & _ & _ & _ & _ & _ & ->)]]];
    cbn [fst snd]; try done.
  split; [by rewrite length_insert|]. by apply Forall_insert.
Qed.

Lemma dispatch_clients_inv rfds o tbl :
  table_inv tbl -> table_inv (dispatch_clients rfds o tbl).1.
Proof.
  intros [Hlen Hall]. rewrite dispatch_clients_eq by done. cbn [fst].
  split; [by rewrite length_served_upto|].
  apply Forall_lookup. intros j c'. rewrite lookup_served_upto.
  destruct (tbl !! j) as [c|] eqn:Hj; [|done]. cbn. intros [= <-].
  pose proof (Forall_lookup_1 _ _ _ _ Hall Hj) as Hc.
  case_bool_decide; [|done]. unfold serve.
  destruct (is_ready rfds c); [|done].
  case_bool_decide; cbn; [done|exact Hc].
Qed.

End Listener.

Section Loop.
Import SelectServer.
Implicit Types (tbl : list clientstate_t) (c : clientstate_t) (st : loop_state).

Lemma build_read_fds_clientStates listen_fd st :
  clientStates (build_read_fds listen_fd st) = clientStates st.
Proof. apply build_read_fds_spec. Qed.

(** One pass of the loop in terms of its three stages. *)
Lemma iteration_unfold listen_fd o st :
  iteration listen_fd o st
  = let q := build_read_fds listen_fd st in
    let call := EvSelect (nfds q) (read_fds q) (write_fds q) in
    match sel_ready o with
    | None => ([call; EvPerror "Select"; EvExit EXIT_FAILURE], Exited EXIT_FAILURE)
    | Some ready =>
        let rf := read_fds q ∩ ready in
        let l := dispatch_listener listen_fd rf o (clientStates st) in
        if l.2 then
          (call :: l.1.2 ++ (dispatch_clients rf o l.1.1).2,
           Running (mk_loop_state (dispatch_clients rf o l.1.1).1 rf
                      (write_fds q ∩ ready) (nfds q)))
        else
          (call :: l.1.2,
           Running (mk_loop_state l.1.1 rf (write_fds q ∩ ready) (nfds q)))
    end.
Proof.
  unfold iteration. cbv zeta. rewrite build_read_fds_clientStates.
  destruct (sel_ready o) as [ready|]; [|reflexivity].
  set (rf := read_fds (build_read_fds listen_fd st) ∩ ready).
  destruct (dispatch_listener listen_fd rf o (clientStates st)) as [[t1 tr1] []];
    cbn [fst snd]; [|reflexivity].
  destruct (dispatch_clients rf o t1) as [t2 tr2]. reflexivity.
Qed.

Lemma iteration_inv listen_fd o st tr st' :
  table_inv (clientStates st) ->
  iteration listen_fd o st = (tr, Running st') ->
  table_inv (clientStates st').
Proof.
  intros Hinv. rewrite iteration_unfold. cbv zeta.
  destruct (sel_ready o) as [ready|]; [|done].
  set (rf := read_fds (build_read_fds listen_fd st) ∩ ready).
  pose proof (dispatch_listener_inv listen_fd rf o _ Hinv) as H1.
  destruct (dispatch_listener listen_fd rf o (clientStates st)) as [[t1 tr1] go].
  cbn [fst snd] in *.
  destruct go; intros [= _ <-]; cbn [clientStates]; [|done].
  by apply dispatch_clients_inv.
Qed.

Lemma run_inv listen_fd os st tr st' :
  table_inv (clientStates st) ->
  run listen_fd os st = (tr, Running st') ->
  table_inv (clientStates st').
Proof.
  revert st tr. induction os as [|o os IH]; intros st tr Hinv; cbn [run].
  - by intros [= _ <-].
  - destruct (iteration listen_fd o st) as [tr1 [st1|code]] eqn:Hit; [|done].
    destruct (run listen_fd os st1) as [tr2 out] eqn:Hrun.
    intros [= _ ->]. eapply IH; [|exact Hrun]. by eapply iteration_inv.
Qed.

Lemma table_inv_fresh : table_inv (replicate MAX_CLIENTS fresh_slot).
Proof.
  split; [apply length_replicate|].
  apply Forall_replicate. intros H. by destruct H.
Qed.

Lemma setup_Running s junk tr st listen_fd :
  setup s junk = (tr, Running st, listen_fd) ->
  clientStates st = replicate MAX_CLIENTS fresh_slot ∧ listen_fd ≠ -1.
Proof.
  unfold setup. repeat case_bool_decide; intros [= _ <- <-]; cbn [clientStates].
  split; [|done]. apply init_clients_fresh. apply length_replicate.
Qed.

Lemma main_inv s junk os tr st :
  main s junk os = (tr, Running st) -> table_inv (clientStates st).
Proof.
  unfold main.
  destruct (setup s junk) as [[tr0 [st0|code]] lfd] eqn:Hs; [|done].
  destruct (run lfd os st0) as [tr1 out] eqn:Hrun. intros [= _ ->].
  eapply run_inv; [|exact Hrun].
  destruct (setup_Running _ _ _ _ _ Hs) as [-> _]. apply table_inv_fresh.
Qed.

End Loop.

Section DispatchTrace.
Import SelectServer.
Implicit Types (tbl : list clientstate_t) (c : clientstate_t) (i j n : nat).
Variables (rfds : gset Z) (o : os_iter).

Lemma read_slots_app tr1 tr2 :
  read_slots (tr1 ++ tr2) = read_slots tr1 ++ read_slots tr2.
Proof. apply omap_app. Qed.

Lemma read_slots_serve i c :
  read_slots (serve rfds o i c).2 = if is_ready rfds c then [i] else [].
Proof.
  unfold serve. destruct (is_ready rfds c); [|done].
  by case_bool_decide.
Qed.

Lemma read_slots_slot_events (P : nat -> Prop) tbl (l : list nat) :
  Forall P l ->
  Forall P (read_slots (concat (map (slot_events rfds o tbl) l))).
Proof.
  induction 1 as [|j l Hj _ IH]; [constructor|].
  cbn [map concat]. rewrite read_slots_app. apply Forall_app. split; [|exact IH].
  unfold slot_events. destruct (tbl !! j) as [c|]; [|constructor].
  rewrite read_slots_serve. destruct (is_ready rfds c); by repeat constructor.
Qed.

(** The part of the client loop that concerns slot [i]: the calls before
    it read into lower slots only, the calls after it into higher ones. *)
Lemma dispatch_clients_slot tbl i c :
  length tbl = MAX_CLIENTS ->
  tbl !! i = Some c ->
  ∃ pre post,
    (dispatch_clients rfds o tbl).2 = pre ++ (serve rfds o i c).2 ++ post ∧
    Forall (fun j => j < i)%nat (read_slots pre) ∧
    Forall (fun j => i < j)%nat (read_slots post) ∧
    (dispatch_clients rfds o tbl).1 !! i = Some (serve rfds o i c).1.
Proof.
  intros Hlen Hi. pose proof (lookup_lt_Some _ _ _ Hi) as Hlt.
  rewrite dispatch_clients_eq by done. cbn [fst snd].
  exists (concat (map (slot_events rfds o tbl) (seq 0 i))),
         (concat (map (slot_events rfds o tbl) (seq (S i) (MAX_CLIENTS - S i)))).
  repeat split.
  - replace MAX_CLIENTS with (i + S (MAX_CLIENTS - S i))%nat at 1 by lia.
    rewrite seq_app, map_app, concat_app. cbn [seq map concat Nat.add].
    by rewrite (slot_events_Some _ _ _ _ _ Hi).
  - apply read_slots_slot_events. apply Forall_seq. intros; lia.
  - apply read_slots_slot_events. apply Forall_seq. intros; lia.
  - rewrite lookup_served_upto, Hi. cbn.
    by rewrite bool_decide_eq_true_2 by lia.
Qed.

Lemma dispatch_clients_lookup tbl i c :
  length tbl = MAX_CLIENTS ->
  tbl !! i = Some c ->
  (dispatch_clients rfds o tbl).1 !! i = Some (serve rfds o i c).1.
Proof.
  intros Hlen Hi.
  by destruct (dispatch_clients_slot tbl i c Hlen Hi) as (? & ? & _ & _ & _ & ?).
Qed.

Lemma dispatch_clients_length tbl :
  length tbl = MAX_CLIENTS -> length (dispatch_clients rfds o tbl).1 = MAX_CLIENTS.
Proof.
  intros Hlen. rewrite dispatch_clients_eq by done. cbn [fst].
  by rewrite length_served_upto.
Qed.

End DispatchTrace.

Section ListenerFrame.
Import SelectServer.
Implicit Types (tbl : list clientstate_t) (c : clientstate_t) (i j n : nat).

(** The listener dispatch never reads and leaves the slots in use alone. *)
Lemma dispatch_listener_in_use listen_fd rfds o tbl i c :
  length tbl = MAX_CLIENTS ->
  tbl !! i = Some c -> fd c ≠ -1 ->
  (dispatch_listener listen_fd rfds o tbl).1.1 !! i = Some c.
Proof.
  intros Hlen Hi Hfd.
  destruct (dispatch_listener_cases listen_fd rfds o tbl Hlen)
    as [[_ ->]|[(_ & _ & ->)|[(_ & _ & _ & _ & ->)
       |(k & c' & _ & _ & _ & _ & Hk & Hfree & _ & ->)]]];
    cbn [fst snd]; try done.
  rewrite list_lookup_insert_ne; [done|]. intros ->. congruence.
Qed.

Lemma dispatch_listener_length listen_fd rfds o tbl :
  length tbl = MAX_CLIENTS ->
  length (dispatch_listener listen_fd rfds o tbl).1.1 = MAX_CLIENTS.
Proof.
  intros Hlen.
  destruct (dispatch_listener_cases listen_fd rfds o tbl Hlen)
    as [[_ ->]|[(_ & _ & ->)|[(_ & _ & _ & _ & ->)
       |(k & c' & _ & _ & _ & _ & Hk & Hfree & _ & ->)]]];
    cbn [fst snd]; try done.
  by rewrite length_insert.
Qed.

Lemma dispatch_listener_no_read listen_fd rfds o tbl :
  read_slots (dispatch_listener listen_fd rfds o tbl).1.2 = [].
Proof. unfold dispatch_listener. by repeat case_bool_decide. Qed.

Lemma dispatch_listener_go_on listen_fd rfds o tbl :
  (dispatch_listener listen_fd rfds o tbl).2
  = negb (bool_decide (listen_fd ∈ rfds) && bool_decide (acc_result o = -1)).
Proof. unfold dispatch_listener. by repeat case_bool_decide. Qed.

End ListenerFrame.

Section PassOnSlot.
Import SelectServer.
Implicit Types (tbl : list clientstate_t) (c : clientstate_t) (st : loop_state).

(** A pass that reaches the client loop, seen from a slot that is in use
    and whose descriptor [select] reported. *)
Lemma iteration_serve listen_fd o st ready i c :
  length (clientStates st) = MAX_CLIENTS ->
  sel_ready o = Some ready ->
  clientStates st !! i = Some c ->
  fd c ≠ -1 ->
  fd c ∈ ready ->
  ¬ (listen_fd ∈ ready ∧ acc_result o = -1) ->
  ∃ st' pre post rf,
    iteration listen_fd o st = (pre ++ (serve rf o i c).2 ++ post, Running st') ∧
    is_ready rf c = true ∧
    Forall (fun j => j < i)%nat (read_slots pre) ∧
    Forall (fun j => i < j)%nat (read_slots post) ∧
    length (clientStates st') = MAX_CLIENTS ∧
    clientStates st' !! i = Some (serve rf o i c).1.
Proof.
  intros Hlen Hsel Hi Hfd Hready Hacc.
  destruct (build_read_fds_spec listen_fd st) as (_ & _ & Hmem & _).
  rewrite iteration_unfold, Hsel. cbv zeta.
  set (q := build_read_fds listen_fd st) in *.
  set (rf := read_fds q ∩ ready).
  assert (fd c ∈ rf) as Hrf.
  { apply elem_of_intersection. split; [|done]. apply Hmem. right.
    exists i, c. repeat split; try done.
    apply lookup_lt_Some in Hi. lia. }
  pose proof (dispatch_listener_go_on listen_fd rf o (clientStates st)) as Hgo.
  pose proof (dispatch_listener_no_read listen_fd rf o (clientStates st)) as Hnr.
  pose proof (dispatch_listener_length listen_fd rf o _ Hlen) as Hlen1.
  pose proof (dispatch_listener_in_use listen_fd rf o _ i c Hlen Hi Hfd) as Hi1.
  destruct (dispatch_listener listen_fd rf o (clientStates st)) as [[t1 tr1] go].
  cbn [fst snd] in *.
  assert (go = true) as ->.
  { rewrite Hgo. apply negb_true_iff, andb_false_iff.
    destruct (decide (acc_result o = -1)) as [Ha|Ha].
    - left. apply bool_decide_eq_false_2. intros Hin.
      apply elem_of_intersection in Hin as [_ Hin]. by apply Hacc.
    - right. by apply bool_decide_eq_false_2. }
  destruct (dispatch_clients_slot rf o t1 i c Hlen1 Hi1)
    as (pre & post & Htr & Hpre & Hpost & Hslot).
  exists (mk_loop_state (dispatch_clients rf o t1).1 rf (write_fds q ∩ ready) (nfds q)),
         (EvSelect (nfds q) (read_fds q) (write_fds q) :: tr1 ++ pre), post, rf.
  cbn [clientStates]. repeat split.
  - by rewrite Htr, (app_assoc tr1 pre).
  - unfold is_ready. by rewrite !bool_decide_eq_true_2.
  - change (Forall (fun j => j < i)%nat (read_slots (tr1 ++ pre))).
    rewrite read_slots_app, Hnr. exact Hpre.
  - exact Hpost.
  - by apply dispatch_clients_length.
  - exact Hslot.
Qed.

(** A read that returns nothing leaves the buffer as it was. *)
Lemma os_read_nothing n r buf :
  (os_read n r buf).1 ≤ 0 -> (os_read n r buf).2 = buf.
Proof.
  destruct r as [|bs]; cbn [os_read fst snd]; [done|].
  intros H. assert (length (take n bs) = 0%nat) as H0 by lia.
  rewrite H0. by apply nil_length_inv in H0 as ->.
Qed.

End PassOnSlot.

Section Order.
Import SelectServer.
Implicit Types (tbl : list clientstate_t) (c : clientstate_t) (st : loop_state).
Variables (rfds : gset Z) (o : os_iter).






End Order.

Section Wake.
Import SelectServer.
Implicit Types (tbl : list clientstate_t) (c : clientstate_t) (st : loop_state).

(** The listener is always in the set handed to [select]. *)
Lemma listener_in_query listen_fd st ready :
  listen_fd ∈ read_fds (build_read_fds listen_fd st) ∩ ready <-> listen_fd ∈ ready.
Proof.
  destruct (build_read_fds_spec listen_fd st) as (_ & _ & Hmem & _).
  rewrite elem_of_intersection, Hmem.
  split; [by intros [_ ?]|]. intros ?. split; [by left|done].
Qed.


End Wake.

Section Filling.
Import SelectServer.
Implicit Types (tbl : list clientstate_t) (c : clientstate_t) (st : loop_state).

Lemma lookup_filled k j :
  (j < MAX_CLIENTS)%nat ->
  Scenario.filled k !! j
  = Some (if bool_decide (j < k)%nat
          then mk_clientstate (4 + Z.of_nat j) STATE_CONNECTED (buffer fresh_slot)
          else fresh_slot).
Proof.
  intros Hj. unfold Scenario.filled.
  by rewrite list_lookup_imap, lookup_replicate_2.
Qed.

Lemma length_filled k : length (Scenario.filled k) = MAX_CLIENTS.
Proof. unfold Scenario.filled. by rewrite length_imap, length_replicate. Qed.

Lemma filled_0 : Scenario.filled 0 = replicate MAX_CLIENTS fresh_slot.
Proof.
  apply list_eq. intros j. destruct (decide (j < MAX_CLIENTS)%nat).
  - rewrite lookup_filled, lookup_replicate_2 by done.
    by rewrite bool_decide_eq_false_2 by lia.
  - rewrite !lookup_ge_None_2; [done|rewrite length_replicate; lia|].
    rewrite length_filled. lia.
Qed.

(** One more connection while a slot is free: the pass stores it in slot
    [k] and reads nothing. *)
Lemma connect_pass k st :
  (k < MAX_CLIENTS)%nat ->
  clientStates st = Scenario.filled k ->
  ∃ tr st',
    iteration 3 (Scenario.connect (4 + Z.of_nat k)) st = (tr, Running st') ∧
    clientStates st' = Scenario.filled (S k).
Proof.
  intros Hk Htbl. rewrite iteration_unfold. cbn [sel_ready Scenario.connect].
  cbv zeta. rewrite Htbl.
  set (o := Scenario.connect (4 + Z.of_nat k)).
  set (rf := read_fds (build_read_fds 3 st) ∩ {[3]}).
  assert (∀ x, x ∈ rf -> x = 3) as Hrf.
  { intros x Hx. apply elem_of_intersection in Hx as [_ Hx].
    by apply elem_of_singleton in Hx. }
  assert (3 ∈ rf) as H3.
  { apply listener_in_query. by apply elem_of_singleton. }
  assert (dispatch_listener 3 rf o (Scenario.filled k)
          = (Scenario.filled (S k),
             [EvAccept 3; EvPrintf LogNewConnection], true)) as ->.
  { destruct (dispatch_listener_cases 3 rf o (Scenario.filled k) (length_filled k))
      as [[Hin _]|[(_ & Ha & _)|[(_ & _ & _ & Hall & _)
         |(k' & c & _ & _ & _ & Hk' & Hkc & Hfree & Hlow & ->)]]].
    - done.
    - cbn in Ha. lia.
    - apply (Forall_lookup_1 _ _ k fresh_slot) in Hall; [done|].
      rewrite lookup_filled by done. by rewrite bool_decide_eq_false_2 by lia.
    - assert (k' = k) as ->.
      { destruct (decide (k' < k)%nat) as [Hlt|Hge].
        - rewrite lookup_filled in Hkc by done.
          rewrite bool_decide_eq_true_2 in Hkc by done.
          injection Hkc as <-. cbn in Hfree. lia.
        - destruct (decide (k < k')%nat) as [Hgt|]; [|lia].
          exfalso. apply (Hlow k fresh_slot Hgt); [|done].
          rewrite lookup_filled by done. by rewrite bool_decide_eq_false_2 by lia. }
      rewrite lookup_filled in Hkc by done.
      rewrite bool_decide_eq_false_2 in Hkc by lia. injection Hkc as <-.
      f_equal. f_equal. apply list_eq. intros j.
      rewrite list_lookup_insert, length_filled.
      destruct (decide (j < MAX_CLIENTS)%nat) as [Hj|Hj].
      + rewrite !lookup_filled by done. case_decide as Hd.
        * destruct Hd as [<- _]. by rewrite bool_decide_eq_true_2 by lia.
        * f_equal. repeat case_bool_decide; try done; try lia;
            exfalso; apply Hd; split; lia.
      + rewrite !lookup_ge_None_2 by (rewrite length_filled; lia).
        case_decide as Hd; [lia|done]. }
  cbn [fst snd].
  rewrite dispatch_clients_eq by apply length_filled. cbn [fst snd].
  eexists _, _. split; [reflexivity|]. cbn [clientStates].
  apply list_eq. intros j. rewrite lookup_served_upto.
  destruct (Scenario.filled (S k) !! j) as [c|] eqn:Hj; [|done].
  cbn. f_equal. case_bool_decide; [|done].
  unfold serve, is_ready.
  destruct (decide (j < MAX_CLIENTS)%nat) as [Hlt|Hge].
  2:{ rewrite lookup_ge_None_2 in Hj by (rewrite length_filled; lia). done. }
  rewrite lookup_filled in Hj by done. injection Hj as <-.
  destruct (bool_decide (j < S k)%nat); cbn [fd fresh_slot].
  - rewrite (bool_decide_eq_false_2 (_ ∈ rf)); [by rewrite andb_false_r|].
    intros Hin. apply Hrf in Hin. lia.
  - by rewrite bool_decide_eq_false_2 by (intros H'; by apply H').
Qed.

Lemma connect_passes n k st :
  (k + n ≤ MAX_CLIENTS)%nat ->
  clientStates st = Scenario.filled k ->
  ∃ tr st',
    run 3 (map (fun i => Scenario.connect (4 + Z.of_nat i)) (seq k n)) st
    = (tr, Running st') ∧
    clientStates st' = Scenario.filled (k + n).
Proof.
  revert k st. induction n as [|n IH]; intros k st Hkn Htbl.
  - exists [], st. split; [reflexivity|]. by rewrite Nat.add_0_r.
  - cbn [seq map run].
    destruct (connect_pass k st ltac:(lia) Htbl) as (tr1 & st1 & -> & Htbl1).
    destruct (IH (S k) st1 ltac:(lia) Htbl1) as (tr2 & st2 & -> & Htbl2).
    exists (tr1 ++ tr2), st2. split; [reflexivity|].
    rewrite Htbl2. f_equal. lia.
Qed.

(** [MAX_CLIENTS] connections fill the table. *)
Lemma fill_table_run :
  ∃ tr st,
    Scenario.full_run = (tr, Running st) ∧
    clientStates st = Scenario.filled MAX_CLIENTS.
Proof.
  unfold Scenario.full_run, main, setup.
  cbn [socket_result bind_result listen_result Scenario.setup_ok].
  rewrite !bool_decide_eq_false_2 by done.
  destruct (connect_passes MAX_CLIENTS 0
              (mk_loop_state (init_clients clientStates_static) ∅ ∅ 0))
    as (tr & st & Hrun & Htbl); [lia| |].
  - cbn [clientStates]. rewrite init_clients_fresh by apply length_replicate.
    symmetry. apply filled_0.
  - unfold Scenario.fill_table, Scenario.no_junk. cbn [fst snd].
    rewrite Hrun. eexists _, st. split; [reflexivity|exact Htbl].
Qed.

Lemma occupied_filled_all : occupied (Scenario.filled MAX_CLIENTS) = MAX_CLIENTS.
Proof.
  rewrite <- (length_filled MAX_CLIENTS) at 2. apply occupied_full.
  apply Forall_lookup. intros j c Hj.
  pose proof (lookup_lt_Some _ _ _ Hj) as Hlt. rewrite length_filled in Hlt.
  rewrite lookup_filled in Hj by done.
  rewrite bool_decide_eq_true_2 in Hj by done. injection Hj as <-. cbn. lia.
Qed.

End Filling.

(** * The claims about the select server *)

Section SelectServerClaims.
Import SelectServer.

(** C1. Whatever the operating system answers during the loop, the table the
    server reaches keeps its [MAX_CLIENTS] slots, so the number of slots in
    use never exceeds [MAX_CLIENTS], and every slot in use is marked
    connected.  When all slots are in use and [accept] returns a connection,
    the listener dispatch closes that descriptor at once and returns the
    table unchanged (so the number of slots in use is unchanged). *)
Theorem capacity_invariant (s : os_setup) (junk : gset Z * gset Z * Z)
    (os : list os_iter) (tr : list event) (st : loop_state) :
  main s junk os = (tr, Running st) ->
  length (clientStates st) = MAX_CLIENTS ∧
  (occupied (clientStates st) ≤ MAX_CLIENTS)%nat ∧
  Forall (fun c => fd c ≠ -1 -> state c = STATE_CONNECTED) (clientStates st) ∧
  ∀ (listen_fd : Z) (rfds : gset Z) (o : os_iter),
    occupied (clientStates st) = MAX_CLIENTS ->
    listen_fd ∈ rfds ->
    acc_result o ≠ -1 ->
    dispatch_listener listen_fd rfds o (clientStates st)
    = (clientStates st,
       [EvAccept listen_fd; EvPrintf LogNewConnection;
        EvPrintf LogServerFull; EvClose (acc_result o)],
       true).
Proof.
  intros Hmain. destruct (main_inv _ _ _ _ _ Hmain) as [Hlen Hall].
  split; [exact Hlen|]. split.
  { rewrite <- Hlen. apply occupied_le. }
  split; [exact Hall|].
  intros listen_fd rfds o Hfull Hl Ha. unfold dispatch_listener.
  rewrite (bool_decide_eq_true_2 _ Hl), (bool_decide_eq_false_2 _ Ha).
  rewrite (find_free_slot_full _ Hlen Hfull).
  by rewrite bool_decide_eq_true_2.
Qed.

Lemma capacity_invariant_witness :
  occupied (clientStates Scenario.full_state) = MAX_CLIENTS ∧
  dispatch_listener 3 {[3]} (Scenario.connect 260)
    (clientStates Scenario.full_state)
  = (clientStates Scenario.full_state,
     [EvAccept 3; EvPrintf LogNewConnection; EvPrintf LogServerFull; EvClose 260],
     true).
Proof.
  destruct fill_table_run as (tr & st & Hrun & Htbl).
  assert (Scenario.full_state = st) as Hst.
  { unfold Scenario.full_state, Scenario.state_of. by rewrite Hrun. }
  assert (occupied (clientStates Scenario.full_state) = MAX_CLIENTS) as Hfull.
  { rewrite Hst, Htbl. apply occupied_filled_all. }
  split; [exact Hfull|].
  apply (capacity_invariant Scenario.setup_ok Scenario.no_junk
           Scenario.fill_table tr Scenario.full_state).
  - rewrite Hst. exact Hrun.
  - exact Hfull.
  - by apply elem_of_singleton.
  - discriminate.
Defined.

(** C3. Every pass of the loop starts by calling [select] on a read set
    that is built from the empty set: its members are exactly the
    listening descriptor and the descriptors of the slots whose descriptor
    is not [-1] (an empty slot contributes nothing), the write set is
    empty, and the set is the same whatever the sets held before the
    pass. *)
Theorem query_set_rebuilt (listen_fd : Z) (o : os_iter) (st : loop_state) :
  ∃ (q : loop_state) (tr : list event) (out : outcome),
    q = build_read_fds listen_fd st ∧
    iteration listen_fd o st
    = (EvSelect (nfds q) (read_fds q) (write_fds q) :: tr, out) ∧
    write_fds q = ∅ ∧
    (∀ x, x ∈ read_fds q <->
          x = listen_fd ∨
          ∃ i c, (i < MAX_CLIENTS)%nat ∧ clientStates st !! i = Some c ∧
                 fd c ≠ -1 ∧ x = fd c) ∧
    (∀ st2, clientStates st2 = clientStates st ->
            build_read_fds listen_fd st2 = q).
Proof.
  destruct (build_read_fds_spec listen_fd st) as (_ & Hw & Hmem & _).
  rewrite iteration_unfold. cbv zeta.
  destruct (sel_ready o) as [ready|].
  - set (rf := read_fds (build_read_fds listen_fd st) ∩ ready).
    destruct (dispatch_listener listen_fd rf o (clientStates st)) as [[t1 tr1] go].
    cbn [fst snd]. destruct go; eexists _, _, _;
      (split; [reflexivity|]); (split; [reflexivity|]);
      (split; [exact Hw|]); (split; [exact Hmem|]);
      intros st2; apply build_read_fds_table.
  - eexists _, _, _.
    (split; [reflexivity|]); (split; [reflexivity|]);
      (split; [exact Hw|]); (split; [exact Hmem|]).
    intros st2; apply build_read_fds_table.
Qed.








(** C6 (as the code has it).  After a slot is released (its read returned 0
    or less) its descriptor is [-1], as in a freshly initialised slot, so
    the next [find_free_slot] answers the index of that slot or of a free
    slot below it, and exactly that index when every slot below it is in
    use.  The state field of the released slot is [STATE_DISCONNECTED] and
    its buffer is what it was before the release. *)
Theorem released_slot_is_free (listen_fd : Z) (o : os_iter) (st : loop_state)
    (ready : gset Z) (i : nat) (c : clientstate_t) :
  length (clientStates st) = MAX_CLIENTS ->
  sel_ready o = Some ready ->
  clientStates st !! i = Some c ->
  fd c ≠ -1 ->
  fd c ∈ ready ->
  ¬ (listen_fd ∈ ready ∧ acc_result o = -1) ->
  (os_read BUFF_SIZE (rd_result o i) (buffer c)).1 ≤ 0 ->
  ∃ (tr : list event) (st' : loop_state) (c' : clientstate_t) (k : nat),
    iteration listen_fd o st = (tr, Running st') ∧
    clientStates st' !! i = Some c' ∧
    fd c' = fd fresh_slot ∧
    state c' = STATE_DISCONNECTED ∧
    buffer c' = buffer c ∧
    find_free_slot (clientStates st') = Z.of_nat k ∧
    (k ≤ i)%nat ∧
    (k = i <->
     ∀ j c'', (j < i)%nat -> clientStates st' !! j = Some c'' -> fd c'' ≠ -1).
Proof.
  intros Hlen Hsel Hi Hfd Hready Hacc Hle.
  destruct (iteration_serve listen_fd o st ready i c Hlen Hsel Hi Hfd Hready Hacc)
    as (st' & pre & post & rf & Hit & Hisr & _ & _ & Hlen' & Hslot).
  unfold serve in Hslot. rewrite Hisr, (bool_decide_eq_true_2 _ Hle) in Hslot.
  cbn [fst] in Hslot. rewrite (os_read_nothing _ _ _ Hle) in Hslot.
  destruct (find_free_slot_spec (clientStates st') Hlen')
    as [[_ Hall]|(k & ck & Hf & Hk & Hkc & Hfree & Hlow)].
  { by apply (Forall_lookup_1 _ _ _ _ Hall) in Hslot. }
  assert (k ≤ i)%nat as Hki.
  { destruct (decide (k ≤ i)%nat) as [|Hn]; [done|].
    by apply (Hlow i _ ltac:(lia)) in Hslot. }
  eexists _, st', _, k. split; [exact Hit|]. split; [exact Hslot|].
  repeat split; try done.
  - intros -> j c'' Hj. by apply Hlow.
  - intros Hbelow. destruct (decide (k = i)) as [|Hne]; [done|].
    by apply (Hbelow k ck ltac:(lia)) in Hkc.
Qed.

(** C6, as stated, fails on the state field: after the release of slot 0
    the slot holds [-1] and is the one [find_free_slot] answers, but it is
    not equal to a freshly initialised slot. *)
Lemma released_slot_not_fresh :
  closed_fds Scenario.release_run.1 = [4] ∧
  find_free_slot (clientStates Scenario.released) = 0 ∧
  clientStates Scenario.released !! 0%nat ≠ Some fresh_slot.
Proof.
  split; [by vm_compute|]. split; [by vm_compute|].
  intros H. apply (f_equal (fmap state)) in H. vm_compute in H. discriminate.
Qed.

Lemma released_slot_is_free_witness :
  ∃ (tr : list event) (st' : loop_state) (c' : clientstate_t) (k : nat),
    iteration 3 (Scenario.client_reads (RdData [])) Scenario.one_client
    = (tr, Running st') ∧
    clientStates st' !! 0%nat = Some c' ∧
    fd c' = fd fresh_slot ∧
    state c' = STATE_DISCONNECTED ∧
    buffer c' = replicate BUFF_SIZE x00 ∧
    find_free_slot (clientStates st') = Z.of_nat k ∧
    (k ≤ 0)%nat ∧
    (k = 0%nat <->
     ∀ j c'', (j < 0)%nat -> clientStates st' !! j = Some c'' -> fd c'' ≠ -1).
Proof.
  apply (released_slot_is_free 3 (Scenario.client_reads (RdData []))
           Scenario.one_client {[4]} 0
           (mk_clientstate 4 STATE_CONNECTED (replicate BUFF_SIZE x00))).
  - by vm_compute.
  - reflexivity.
  - by vm_compute.
  - discriminate.
  - by apply elem_of_singleton.
  - intros [H _]. apply elem_of_singleton in H. discriminate.
  - by vm_compute.
Defined.

(** C7 (as the code has it).  The pass of the client loop at index [i]
    leaves every other slot as it was, and after the whole client dispatch
    the buffer of a slot is its own old buffer, overwritten by its own read
    if it was read.  Nothing clears a buffer: a read replaces only the
    first [bytes_read] bytes and leaves the rest, a read that returns 0 or
    less (the release) leaves all of it, and storing a new connection in
    the slot leaves all of it. *)
Theorem read_touches_own_buffer (rfds : gset Z) (o : os_iter)
    (tbl : list clientstate_t) (i : nat) (c : clientstate_t) :
  length tbl = MAX_CLIENTS ->
  tbl !! i = Some c ->
  (∀ tr j, j ≠ i -> (client_body rfds o i (tbl, tr)).1 !! j = tbl !! j) ∧
  (∃ c', (dispatch_clients rfds o tbl).1 !! i = Some c' ∧
         buffer c' = if is_ready rfds c
                     then (os_read BUFF_SIZE (rd_result o i) (buffer c)).2
                     else buffer c) ∧
  (∀ r, let res := os_read BUFF_SIZE r (buffer c) in
        drop (Z.to_nat res.1) res.2 = drop (Z.to_nat res.1) (buffer c) ∧
        (res.1 ≤ 0 -> res.2 = buffer c)) ∧
  (∀ listen_fd o',
     ∃ c', (dispatch_listener listen_fd rfds o' tbl).1.1 !! i = Some c' ∧
           buffer c' = buffer c).
Proof.
  intros Hlen Hi. split; [|split; [|split]].
  - intros tr j Hne. rewrite (client_body_serve _ _ _ _ _ _ Hi). cbn [fst].
    by apply list_lookup_insert_ne.
  - eexists. split; [by apply dispatch_clients_lookup|].
    unfold serve. destruct (is_ready rfds c); [|done]. by case_bool_decide.
  - intros r res. split; [|apply os_read_nothing].
    subst res. destruct r as [|bs]; cbn [os_read fst snd]; [done|].
    by rewrite Nat2Z.id, drop_app_length.
  - intros listen_fd o'.
    destruct (dispatch_listener_cases listen_fd rfds o' tbl Hlen)
      as [[_ ->]|[(_ & _ & ->)|[(_ & _ & _ & _ & ->)
         |(k & ck & _ & _ & _ & _ & Hk & _ & _ & ->)]]];
      cbn [fst snd]; try by exists c.
    destruct (decide (k = i)) as [->|Hne].
    + rewrite list_lookup_insert_eq by (by eapply lookup_lt_Some).
      eexists. split; [reflexivity|]. cbn. congruence.
    + exists c. by rewrite list_lookup_insert_ne.
Qed.

(** C7, as stated, fails across the reuse of a slot: the first client of
    slot 0 sent HELLO and closed, the second sends two bytes, and the data
    handler is given those two bytes followed by the last three bytes of
    the first client. *)
Lemma residual_bytes_after_reuse :
  closed_fds Scenario.reuse_run.1 = [4] ∧
  fd <$> clientStates Scenario.reused !! 0%nat = Some 4 ∧
  handled Scenario.second_read.1 = [Scenario.ab ++ drop 2 Scenario.hello] ∧
  Scenario.ab ++ drop 2 Scenario.hello ≠ Scenario.ab.
Proof. repeat split; by vm_compute. Qed.

Lemma read_touches_own_buffer_witness :
  (client_body {[4]} (Scenario.client_reads (RdData Scenario.hi)) 0
     (clientStates Scenario.one_client, [])).1 !! 1%nat
  = clientStates Scenario.one_client !! 1%nat ∧
  (∃ c', (dispatch_clients {[4]} (Scenario.client_reads (RdData Scenario.hi))
            (clientStates Scenario.one_client)).1 !! 0%nat = Some c' ∧
         buffer c' = if is_ready {[4]}
                          (mk_clientstate 4 STATE_CONNECTED (replicate BUFF_SIZE x00))
                     then (os_read BUFF_SIZE (RdData Scenario.hi)
                             (replicate BUFF_SIZE x00)).2
                     else replicate BUFF_SIZE x00) ∧
  (os_read BUFF_SIZE (RdData []) (replicate BUFF_SIZE x00)).2
  = replicate BUFF_SIZE x00.
Proof.
  destruct (read_touches_own_buffer {[4]}
              (Scenario.client_reads (RdData Scenario.hi))
              (clientStates Scenario.one_client) 0
              (mk_clientstate 4 STATE_CONNECTED (replicate BUFF_SIZE x00)))
    as (Hframe & Hbuf & Hres & _).
  - by vm_compute.
  - by vm_compute.
  - split; [apply Hframe; discriminate|]. split; [exact Hbuf|].
    apply (Hres (RdData [])). by vm_compute.
Defined.

End SelectServerClaims.

(** * Properties of the hello frame *)

Section Codec.
Import Proto.
Implicit Types (b : byte) (bs : list byte) (v : Z) (w : nat) (e : endianness).

Lemma Z_of_byte_range b : 0 ≤ Z_of_byte b < 256.
Proof. unfold Z_of_byte. pose proof (Byte.to_N_bounded b). lia. Qed.

Lemma byte_of_Z_of_byte b : byte_of_Z (Z_of_byte b) = b.
Proof.
  unfold byte_of_Z. rewrite Z.mod_small by apply Z_of_byte_range.
  unfold Z_of_byte. by rewrite N2Z.id, Byte.of_to_N.
Qed.

Lemma Z_of_byte_of_Z v : Z_of_byte (byte_of_Z v) = v mod 256.
Proof.
  unfold byte_of_Z, Z_of_byte.
  pose proof (Z.mod_pos_bound v 256 ltac:(lia)) as Hr.
  destruct (Byte.of_N (Z.to_N (v mod 256))) as [b|] eqn:Hb.
  - apply Byte.to_of_N in Hb. rewrite Hb. lia.
  - apply Byte.of_N_None_iff in Hb. lia.
Qed.

Lemma length_le_bytes w v : length (le_bytes w v) = w.
Proof. revert v. induction w as [|w IH]; intros v; cbn; [done|]. by rewrite IH. Qed.

Lemma le_value_range bs : 0 ≤ le_value bs < 256 ^ Z.of_nat (length bs).
Proof.
  induction bs as [|b bs IH]; [cbn; lia|].
  cbn [le_value length]. rewrite Nat2Z.inj_succ, Z.pow_succ_r by lia.
  pose proof (Z_of_byte_range b). lia.
Qed.

Lemma le_value_le_bytes w v : le_value (le_bytes w v) = v mod 256 ^ Z.of_nat w.
Proof.
  revert v. induction w as [|w IH]; intros v.
  - cbn. by rewrite Z.mod_1_r.
  - cbn [le_bytes le_value]. rewrite IH, Z_of_byte_of_Z, Z.mod_mod by lia.
    rewrite Nat2Z.inj_succ, Z.pow_succ_r by lia.
    rewrite Z.rem_mul_r by lia. reflexivity.
Qed.

Lemma le_bytes_le_value bs : le_bytes (length bs) (le_value bs) = bs.
Proof.
  induction bs as [|b bs IH]; [done|].
  cbn [length le_bytes le_value]. pose proof (Z_of_byte_range b) as Hb.
  rewrite (Z.mul_comm 256), Z.mod_add, Z.div_add by lia.
  rewrite (Z.mod_small (Z_of_byte b)), (Z.div_small (Z_of_byte b)) by lia.
  by rewrite Z.add_0_l, IH, byte_of_Z_of_byte.
Qed.

Lemma length_host_bytes e w v : length (host_bytes e w v) = w.
Proof.
  destruct e; cbn; unfold be_bytes; rewrite ?length_rev; apply length_le_bytes.
Qed.

(** Writing a value to memory and reading it back. *)
Lemma host_value_host_bytes e w v :
  host_value e (host_bytes e w v) = v mod 256 ^ Z.of_nat w.
Proof.
  destruct e; cbn; unfold be_value, be_bytes; rewrite ?rev_involutive;
    apply le_value_le_bytes.
Qed.

(** Reading bytes as a value and writing the value back. *)
Lemma host_bytes_host_value e bs :
  host_bytes e (length bs) (host_value e bs) = bs.
Proof.
  destruct e; cbn; [apply le_bytes_le_value|].
  unfold be_bytes, be_value. rewrite <- (length_rev bs), le_bytes_le_value.
  apply rev_involutive.
Qed.

Lemma be_value_range bs : 0 ≤ be_value bs < 256 ^ Z.of_nat (length bs).
Proof. unfold be_value. rewrite <- (length_rev bs). apply le_value_range. Qed.

Lemma be_value_be_bytes w v : be_value (be_bytes w v) = v mod 256 ^ Z.of_nat w.
Proof. unfold be_value, be_bytes. rewrite rev_involutive. apply le_value_le_bytes. Qed.

(** [ntohl] of what the machine reads from four bytes is their value most
    significant byte first, on either machine; storing it and loading it
    again gives the same value. *)
Lemma ntohl_host_value e bs :
  length bs = 4%nat -> ntohl e (host_value e bs) = be_value bs.
Proof. intros H. unfold ntohl. rewrite <- H. by rewrite host_bytes_host_value. Qed.

Lemma ntohs_host_value e bs :
  length bs = 2%nat -> ntohs e (host_value e bs) = be_value bs.
Proof. intros H. unfold ntohs. rewrite <- H. by rewrite host_bytes_host_value. Qed.

Lemma reload e w bs :
  length bs = w -> host_value e (host_bytes e w (be_value bs)) = be_value bs.
Proof.
  intros <-. rewrite host_value_host_bytes. apply Z.mod_small, be_value_range.
Qed.

Lemma to_int_small v : 0 ≤ v < 2 ^ 32 -> (to_int v = 1 <-> v = 1).
Proof.
  intros Hv. unfold to_int. rewrite Z.mod_small by done.
  destruct (v <? 2 ^ 31) eqn:Hlt; [done|].
  apply Z.ltb_ge in Hlt. lia.
Qed.

(** What the client decodes from twelve bytes on the wire. *)
Lemma received_fields e (t0 t1 t2 t3 l0 l1 p0 p1 d0 d1 d2 d3 : byte)
    (junk : list byte) :
  let wire := [t0; t1; t2; t3; l0; l1; p0; p1; d0; d1; d2; d3] in
  SimpleClient.hdr_type e (SimpleClient.received e (RdData (wire ++ junk)))
  = be_value [t0; t1; t2; t3] ∧
  SimpleClient.hdr_len e (SimpleClient.received e (RdData (wire ++ junk)))
  = be_value [l0; l1] ∧
  SimpleClient.hdr_data e (SimpleClient.received e (RdData (wire ++ junk)))
  = to_int (be_value [d0; d1; d2; d3]).
Proof.
  intros wire. unfold SimpleClient.received, SimpleClient.hdr_type,
    SimpleClient.hdr_len, SimpleClient.hdr_data.
  set (zeros := replicate 4096 x00).
  assert ((os_read (sizeof_proto_hdr_t + sizeof_int) (RdData (wire ++ junk)) zeros).2
          = wire ++ drop 12 zeros) as ->.
  { reflexivity. }
  generalize (drop 12 zeros). intros tail.
  unfold load, store, wire.
  cbn [Nat.add offsetof_type offsetof_len sizeof_proto_hdr_t firstn skipn app].
  rewrite (ntohl_host_value e [t0; t1; t2; t3]) by done.
  pose proof (length_host_bytes e 4 (be_value [t0; t1; t2; t3])) as Ht.
  destruct (host_bytes e 4 (be_value [t0; t1; t2; t3]))
    as [|h0 [|h1 [|h2 [|h3 [|]]]]] eqn:Eh; try discriminate Ht.
  cbn [firstn skipn app].
  rewrite (ntohs_host_value e [l0; l1]) by done.
  pose proof (length_host_bytes e 2 (be_value [l0; l1])) as Hl.
  destruct (host_bytes e 2 (be_value [l0; l1])) as [|g0 [|g1 [|]]] eqn:Eg;
    try discriminate Hl.
  cbn [firstn skipn app]. rewrite ?take_0, ?drop_0.
  rewrite (ntohl_host_value e [d0; d1; d2; d3]) by done.
  pose proof (length_host_bytes e 4 (be_value [d0; d1; d2; d3])) as Hd.
  destruct (host_bytes e 4 (be_value [d0; d1; d2; d3]))
    as [|k0 [|k1 [|k2 [|k3 [|]]]]] eqn:Ek; try discriminate Hd.
  cbn [firstn skipn app]. rewrite ?take_0.
  rewrite <- Eh, <- Eg, <- Ek.
  by rewrite !reload.
Qed.

End Codec.

(** * The claims about the hello handshake and the two small programs *)

Section HelloClaims.
Import Proto.

Lemma hello_frame_bytes :
  frame PROTO_HELLO 4 1
  = [x00; x00; x00; x00; x00; x04; x00; x00; x00; x00; x00; x01].
Proof. reflexivity. Qed.

Lemma server_writes_frame e cfd :
  SimpleServer.handle_client e cfd = [EvWrite cfd (frame PROTO_HELLO 4 1)].
Proof. destruct e; reflexivity. Qed.

(** The fields the client decodes from a frame with type 0 and length 4. *)
Lemma received_frame e v :
  0 ≤ v < 2 ^ 32 ->
  SimpleClient.hdr_type e (SimpleClient.received e (RdData (frame PROTO_HELLO 4 v)))
  = 0 ∧
  SimpleClient.hdr_len e (SimpleClient.received e (RdData (frame PROTO_HELLO 4 v)))
  = 4 ∧
  SimpleClient.hdr_data e (SimpleClient.received e (RdData (frame PROTO_HELLO 4 v)))
  = to_int v.
Proof.
  intros Hv. unfold frame.
  pose proof (be_value_be_bytes 4 v) as Hval.
  assert (length (be_bytes 4 v) = 4%nat) as Hlen
    by (unfold be_bytes; by rewrite length_rev, length_le_bytes).
  destruct (be_bytes 4 v) as [|d0 [|d1 [|d2 [|d3 [|]]]]]; try discriminate Hlen.
  change (be_bytes 4 PROTO_HELLO ++ be_bytes 2 4 ++ [x00; x00] ++ [d0; d1; d2; d3])
    with ([x00; x00; x00; x00; x00; x04; x00; x00; d0; d1; d2; d3]).
  rewrite <- (app_nil_r [x00; x00; x00; x00; x00; x04; x00; x00; d0; d1; d2; d3]).
  destruct (received_fields e x00 x00 x00 x00 x00 x04 x00 x00 d0 d1 d2 d3 [])
    as (-> & -> & ->).
  rewrite Hval. change (256 ^ Z.of_nat 4) with (2 ^ 32).
  rewrite (Z.mod_small v) by done. done.
Qed.

(** C5 (as the code has it).  On a machine of either byte order, the
    accepting program ([server.c]) writes one frame of 12 bytes to the
    connection: type 0 on 4 bytes, length 4 on 2 bytes, 2 bytes of padding
    that completes the 8-byte header, and payload 1 on 4 bytes, integers
    most significant byte first (00 00 00 00 00 04 00 00 00 00 00 01).  The
    connecting program converts the fields to host order, decodes type 0,
    length 4 and payload 1, and logs the v1 handshake.  For a frame of type
    0 with any other payload it logs the version and a version mismatch,
    writes nothing, and closes the connection. *)
Theorem hello_handshake (e : endianness) (argc cfd fd v : Z) :
  0 ≤ v < 2 ^ 32 ->
  v ≠ 1 ->
  2 ≤ argc ->
  fd ≠ -1 ->
  SimpleServer.handle_client e cfd = [EvWrite cfd (frame PROTO_HELLO 4 1)] ∧
  frame PROTO_HELLO 4 1
  = [x00; x00; x00; x00; x00; x04; x00; x00; x00; x00; x00; x01] ∧
  SimpleClient.hdr_type e (SimpleClient.received e (RdData (frame PROTO_HELLO 4 1)))
  = PROTO_HELLO ∧
  SimpleClient.hdr_len e (SimpleClient.received e (RdData (frame PROTO_HELLO 4 1)))
  = 4 ∧
  SimpleClient.hdr_data e (SimpleClient.received e (RdData (frame PROTO_HELLO 4 1)))
  = 1 ∧
  SimpleClient.handle_client e fd (RdData (frame PROTO_HELLO 4 1))
  = [EvRead fd 12; EvPrintf LogConnectedV1] ∧
  SimpleClient.main e argc fd 0 (RdData (frame PROTO_HELLO 4 v))
  = ([EvSocket; EvConnect fd 5555; EvRead fd 12;
      EvPrintf (LogVersion (to_int v)); EvPrintf LogVersionMismatch; EvClose fd],
     0).
Proof.
  intros Hv Hne Hargc Hfd.
  split; [apply server_writes_frame|]. split; [apply hello_frame_bytes|].
  destruct (received_frame e 1 ltac:(lia)) as (Ht1 & Hl1 & Hd1).
  destruct (received_frame e v Hv) as (Htv & Hlv & Hdv).
  split; [exact Ht1|]. split; [exact Hl1|]. split; [exact Hd1|].
  split.
  - unfold SimpleClient.handle_client. rewrite Ht1, Hd1. reflexivity.
  - unfold SimpleClient.main, SimpleClient.handle_client.
    rewrite bool_decide_eq_false_2 by lia.
    rewrite (bool_decide_eq_false_2 (fd = -1)) by done.
    rewrite Htv, Hdv.
    rewrite (bool_decide_eq_false_2 (0 ≠ PROTO_HELLO)) by (intros H; by apply H).
    rewrite (bool_decide_eq_true_2 (to_int v ≠ 1)).
    + reflexivity.
    + intros H. apply Hne. by apply to_int_small.
Qed.

(** C5, as stated, fails on the size of the frame and on who sends it: the
    frame [server.c] writes is not the 10-byte sequence, it has 12 bytes;
    the client, given the 10-byte sequence, reads its payload two bytes
    further and logs a version mismatch; and the client writes nothing. *)
Lemma hello_frame_is_not_ten_bytes :
  written (SimpleServer.handle_client LittleEndian 4) ≠ [HelloScenario.ten_bytes] ∧
  length (frame PROTO_HELLO 4 1) = 12%nat ∧
  SimpleClient.handle_client LittleEndian 3 (RdData HelloScenario.ten_bytes)
  = [EvRead 3 12; EvPrintf (LogVersion 65536); EvPrintf LogVersionMismatch] ∧
  written (SimpleClient.main LittleEndian 2 3 0 (RdData (frame PROTO_HELLO 4 1))).1
  = [].
Proof. repeat split; by vm_compute. Qed.

Lemma hello_handshake_witness :
  SimpleClient.main BigEndian 2 3 0 (RdData (frame PROTO_HELLO 4 2))
  = ([EvSocket; EvConnect 3 5555; EvRead 3 12;
      EvPrintf (LogVersion (to_int 2)); EvPrintf LogVersionMismatch; EvClose 3],
     0).
Proof.
  refine (proj2 (proj2 (proj2 (proj2 (proj2 (proj2
            (hello_handshake BigEndian 2 4 3 2 _ _ _ _))))))).
  - split; [lia|reflexivity].
  - discriminate.
  - lia.
  - discriminate.
Defined.

(** The set-up of the select server does exit on each of the three
    failures. *)
Lemma select_setup_failures (s : SelectServer.os_setup) junk :
  SelectServer.socket_result s = -1 ∨ SelectServer.bind_result s = -1
  ∨ SelectServer.listen_result s = -1 ->
  ∃ tr msg,
    SelectServer.setup s junk
    = (tr ++ [SelectServer.EvPerror msg; SelectServer.EvExit EXIT_FAILURE],
       SelectServer.Exited EXIT_FAILURE, SelectServer.socket_result s) ∧
    EXIT_FAILURE ≠ 0.
Proof.
  intros H. unfold SelectServer.setup.
  case_bool_decide as H1.
  { by exists [SelectServer.EvSocket], "socket"%string. }
  case_bool_decide as H2.
  { eexists [_; _], "Bind"%string. by split. }
  case_bool_decide as H3.
  { eexists [_; _; _], "listen"%string. by split. }
  by destruct H as [|[|]].
Qed.

(** C9 fails in [server.c]: when [listen] fails the program prints nothing
    and does not return; it goes on to [accept] and serves the clients it
    is given, exactly as if [listen] had succeeded. *)
Theorem listen_failure_ignored :
  SimpleServer.main LittleEndian 3 0 (-1) [(4, 16); (-1, 0)]
  = ([EvSocket; EvBind 3 5555; EvListen 3 0;
      EvAccept 3; EvPrintf (LogClientSize 16);
      EvWrite 4 (frame PROTO_HELLO 4 1); EvClose 4;
      EvAccept 3; EvPrintf (LogClientSize 0); EvPerror "accept"; EvClose 3],
     Some (-1)) ∧
  ∀ e accepts,
    SimpleServer.main e 3 0 (-1) accepts = SimpleServer.main e 3 0 0 accepts.
Proof. split; [reflexivity|]. intros e accepts. reflexivity. Qed.

(** C10. When [connect] fails the client reports the error, closes its
    socket and returns 0, the exit status of success; when the argument is
    missing or [socket] fails it returns -1, a non-zero exit status. *)
Theorem client_exit_codes (e : endianness) (argc sock conn : Z) (rx : read_result) :
  (2 ≤ argc -> sock ≠ -1 -> conn = -1 ->
   SimpleClient.main e argc sock conn rx
   = ([EvSocket; EvConnect sock 5555; EvPerror "connect"; EvClose sock], 0) ∧
   exit_status (SimpleClient.main e argc sock conn rx).2 = 0) ∧
  (argc < 2 ->
   SimpleClient.main e argc sock conn rx = ([EvFprintf LogUsage], -1) ∧
   exit_status (SimpleClient.main e argc sock conn rx).2 ≠ 0) ∧
  (2 ≤ argc -> sock = -1 ->
   SimpleClient.main e argc sock conn rx = ([EvSocket; EvPerror "socket"], -1) ∧
   exit_status (SimpleClient.main e argc sock conn rx).2 ≠ 0).
Proof.
  unfold SimpleClient.main. repeat split.
  - rewrite bool_decide_eq_false_2 by lia.
    by rewrite (bool_decide_eq_false_2 (sock = -1)), bool_decide_eq_true_2.
  - rewrite bool_decide_eq_false_2 by lia.
    by rewrite (bool_decide_eq_false_2 (sock = -1)), bool_decide_eq_true_2.
  - by rewrite bool_decide_eq_true_2.
  - by rewrite bool_decide_eq_true_2.
  - rewrite bool_decide_eq_false_2 by lia. by rewrite bool_decide_eq_true_2.
  - rewrite bool_decide_eq_false_2 by lia. by rewrite bool_decide_eq_true_2.
Qed.

Lemma client_exit_codes_witness :
  (SimpleClient.main LittleEndian 2 3 (-1) RdErr
   = ([EvSocket; EvConnect 3 5555; EvPerror "connect"; EvClose 3], 0) ∧
   exit_status (SimpleClient.main LittleEndian 2 3 (-1) RdErr).2 = 0) ∧
  (SimpleClient.main LittleEndian 1 3 0 RdErr = ([EvFprintf LogUsage], -1) ∧
   exit_status (SimpleClient.main LittleEndian 1 3 0 RdErr).2 ≠ 0) ∧
  (SimpleClient.main LittleEndian 2 (-1) 0 RdErr = ([EvSocket; EvPerror "socket"], -1) ∧
   exit_status (SimpleClient.main LittleEndian 2 (-1) 0 RdErr).2 ≠ 0).
Proof.
  split; [|split].
  - apply (client_exit_codes LittleEndian 2 3 (-1) RdErr); [lia|lia|reflexivity].
  - apply (client_exit_codes LittleEndian 1 3 0 RdErr). lia.
  - apply (client_exit_codes LittleEndian 2 (-1) 0 RdErr); [lia|reflexivity].
Defined.

End HelloClaims.

(** * Further properties of the select server *)

Section TableMore.
Import SelectServer.
Implicit Types (tbl : list clientstate_t) (c : clientstate_t) (st : loop_state).

Lemma MAX_CLIENTS_pos : (0 < MAX_CLIENTS)%nat.
Proof. vm_compute. lia. Qed.

Lemma occupied_replicate_fresh n : occupied (replicate n fresh_slot) = 0%nat.
Proof.
  unfold occupied. induction n as [|n IH]; [done|].
  cbn [replicate]. rewrite filter_cons.
  destruct (decide (fd fresh_slot ≠ -1)) as [H|_]; [by destruct H|exact IH].
Qed.

(** X1. [init_clients] erases whatever the table held: every slot becomes
    the free slot with state [STATE_NEW] and a zeroed buffer, so no slot is
    in use and [find_free_slot] answers index 0. *)
Theorem init_clients_resets (tbl : list clientstate_t) :
  length tbl = MAX_CLIENTS ->
  init_clients tbl = replicate MAX_CLIENTS fresh_slot ∧
  occupied (init_clients tbl) = 0%nat ∧
  find_free_slot (init_clients tbl) = 0.
Proof.
  intros Hlen. rewrite (init_clients_fresh tbl Hlen).
  split; [done|]. split; [apply occupied_replicate_fresh|].
  pose proof MAX_CLIENTS_pos as Hpos.
  assert (replicate MAX_CLIENTS fresh_slot !! 0%nat = Some fresh_slot) as H0
    by (by apply lookup_replicate_2).
  destruct (find_free_slot_spec (replicate MAX_CLIENTS fresh_slot)
              (length_replicate _ _))
    as [[_ Hall]|(k & c & -> & _ & _ & _ & Hlow)].
  - by apply (Forall_lookup_1 _ _ _ _ Hall) in H0.
  - destruct k as [|k]; [done|].
    by apply (Hlow 0%nat fresh_slot ltac:(lia)) in H0.
Qed.

Lemma init_clients_resets_witness :
  init_clients clientStates_static = replicate MAX_CLIENTS fresh_slot ∧
  occupied (init_clients clientStates_static) = 0%nat ∧
  find_free_slot (init_clients clientStates_static) = 0.
Proof.
  apply (init_clients_resets clientStates_static). apply length_replicate.
Defined.

(** X2. [find_free_slot] is first fit and stays in range: its answer is
    [-1] exactly when every slot is in use, and otherwise the index, below
    [MAX_CLIENTS], of a free slot all of whose predecessors are in use. *)
Theorem find_free_slot_first_fit (tbl : list clientstate_t) :
  length tbl = MAX_CLIENTS ->
  -1 ≤ find_free_slot tbl < Z.of_nat MAX_CLIENTS ∧
  (find_free_slot tbl = -1 <-> occupied tbl = MAX_CLIENTS) ∧
  ∀ k : nat,
    find_free_slot tbl = Z.of_nat k ->
    (∃ c, tbl !! k = Some c ∧ fd c = -1) ∧
    ∀ j c', (j < k)%nat -> tbl !! j = Some c' -> fd c' ≠ -1.
Proof.
  intros Hlen.
  destruct (find_free_slot_spec tbl Hlen)
    as [[Hf Hall]|(k & c & Hf & Hk & Hkc & Hfree & Hlow)]; rewrite Hf.
  - split; [lia|]. split.
    + split; [|done]. intros _. rewrite <- Hlen. by apply occupied_full.
    + intros k Hk. lia.
  - split; [lia|]. split.
    + split; [lia|]. intros Hocc. rewrite <- Hlen in Hocc.
      apply occupied_full in Hocc.
      by apply (Forall_lookup_1 _ _ _ _ Hocc) in Hkc.
    + intros k' Hk'. apply Nat2Z.inj in Hk' as <-.
      split; [by exists c|exact Hlow].
Qed.

Lemma find_free_slot_first_fit_witness :
  -1 ≤ find_free_slot (clientStates Scenario.one_client) < Z.of_nat MAX_CLIENTS ∧
  (find_free_slot (clientStates Scenario.one_client) = -1
   <-> occupied (clientStates Scenario.one_client) = MAX_CLIENTS) ∧
  ∀ k : nat,
    find_free_slot (clientStates Scenario.one_client) = Z.of_nat k ->
    (∃ c, clientStates Scenario.one_client !! k = Some c ∧ fd c = -1) ∧
    ∀ j c', (j < k)%nat -> clientStates Scenario.one_client !! j = Some c' ->
            fd c' ≠ -1.
Proof.
  apply (find_free_slot_first_fit (clientStates Scenario.one_client)).
  by vm_compute.
Defined.

Lemma add_slot_loop_max listen_fd tbl n :
  (for_loop n (add_slot tbl) ({[listen_fd]} ∪ ∅, listen_fd + 1)).2 - 1
  ∈ (for_loop n (add_slot tbl) ({[listen_fd]} ∪ ∅, listen_fd + 1)).1.
Proof.
  induction n as [|n IH].
  - rewrite for_loop_0. cbn [fst snd].
    replace (listen_fd + 1 - 1) with listen_fd by lia.
    apply elem_of_union. left. by apply elem_of_singleton.
  - rewrite for_loop_S.
    destruct (for_loop n (add_slot tbl) ({[listen_fd]} ∪ ∅, listen_fd + 1)) as [s m].
    cbn [fst snd] in *. unfold add_slot.
    destruct (tbl !! n) as [c|]; [|exact IH].
    case_bool_decide; [|exact IH]. cbn [fst snd].
    case_bool_decide.
    + replace (fd c + 1 - 1) with (fd c) by lia.
      apply elem_of_union. left. by apply elem_of_singleton.
    + apply elem_of_union. by right.
Qed.

(** X3. The first argument the loop passes to [select] is one more than
    the largest descriptor of the read set: every member is below [nfds],
    and [nfds - 1] is a member. *)
Theorem nfds_is_max_plus_one (listen_fd : Z) (st : loop_state) :
  (∀ x, x ∈ read_fds (build_read_fds listen_fd st) ->
        x < nfds (build_read_fds listen_fd st)) ∧
  nfds (build_read_fds listen_fd st) - 1 ∈ read_fds (build_read_fds listen_fd st).
Proof.
  split; [apply build_read_fds_spec|].
  unfold build_read_fds.
  pose proof (add_slot_loop_max listen_fd (clientStates st) MAX_CLIENTS) as H.
  destruct (for_loop MAX_CLIENTS (add_slot (clientStates st))
              ({[listen_fd]} ∪ ∅, listen_fd + 1)) as [s m].
  exact H.
Qed.

End TableMore.

Section LoopMore.
Import SelectServer.
Implicit Types (tbl : list clientstate_t) (c : clientstate_t) (st : loop_state).

Lemma run_app listen_fd os1 os2 st tr1 st1 :
  run listen_fd os1 st = (tr1, Running st1) ->
  run listen_fd (os1 ++ os2) st
  = ((tr1 ++ (run listen_fd os2 st1).1), (run listen_fd os2 st1).2).
Proof.
  revert st tr1. induction os1 as [|o os1 IH]; intros st tr1; cbn [run app].
  - intros [= <- <-]. by destruct (run listen_fd os2 st).
  - destruct (iteration listen_fd o st) as [tr [st'|code]]; [|done].
    destruct (run listen_fd os1 st') as [tr' out] eqn:Hrun.
    intros [= <- ->]. rewrite (IH _ _ Hrun). cbn [fst snd].
    by rewrite app_assoc.
Qed.

Lemma main_app s junk os1 os2 tr1 st1 :
  main s junk os1 = (tr1, Running st1) ->
  main s junk (os1 ++ os2)
  = (tr1 ++ (run (socket_result s) os2 st1).1, (run (socket_result s) os2 st1).2).
Proof.
  unfold main, setup.
  repeat case_bool_decide; try done.
  destruct (run (socket_result s) os1 _) as [tr out] eqn:Hrun.
  intros [= <- ->]. rewrite (run_app _ _ os2 _ _ _ Hrun). cbn [fst snd].
  by rewrite app_assoc.
Qed.

(** X4. A failure of [select] is fatal at any point of the run: after any
    number of passes, the pass whose [select] fails reports the error and
    exits with [EXIT_FAILURE] without calling [accept], [read] or [close],
    and nothing that the operating system would answer afterwards is
    used. *)
Theorem select_failure_is_fatal (s : os_setup) (junk : gset Z * gset Z * Z)
    (os1 : list os_iter) (o : os_iter) (rest : list os_iter)
    (tr1 : list event) (st : loop_state) :
  main s junk os1 = (tr1, Running st) ->
  sel_ready o = None ->
  ∃ (n : Z) (r w : gset Z),
    main s junk (os1 ++ o :: rest)
    = (tr1 ++ [EvSelect n r w; EvPerror "Select"; EvExit EXIT_FAILURE],
       Exited EXIT_FAILURE).
Proof.
  intros Hmain Hsel. rewrite (main_app _ _ _ _ _ _ Hmain).
  cbn [run]. rewrite iteration_unfold, Hsel. cbv zeta. cbn [fst snd].
  by eexists _, _, _.
Qed.

Lemma select_failure_is_fatal_witness :
  ∃ (n : Z) (r w : gset Z),
    main Scenario.setup_ok Scenario.no_junk
      ([Scenario.connect 4]
       ++ mk_os_iter None 5 (fun _ => RdData Scenario.hi) :: [Scenario.connect 6])
    = ((main Scenario.setup_ok Scenario.no_junk [Scenario.connect 4]).1
       ++ [EvSelect n r w; EvPerror "Select"; EvExit EXIT_FAILURE],
       Exited EXIT_FAILURE).
Proof.
  apply (select_failure_is_fatal Scenario.setup_ok Scenario.no_junk
           [Scenario.connect 4] (mk_os_iter None 5 (fun _ => RdData Scenario.hi))
           [Scenario.connect 6] _ Scenario.one_client).
  - unfold Scenario.one_client, Scenario.state_of.
    destruct (connect_passes 1 0
                (mk_loop_state (init_clients clientStates_static) ∅ ∅ 0))
      as (tr & st' & Hrun & _).
    + pose proof MAX_CLIENTS_pos. lia.
    + cbn [clientStates]. rewrite init_clients_fresh by apply length_replicate.
      symmetry. apply filled_0.
    + unfold main, setup, Scenario.no_junk.
      cbn [socket_result bind_result listen_result Scenario.setup_ok fst snd].
      rewrite !bool_decide_eq_false_2 by done.
      cbn [seq map Nat.add] in Hrun. change (4 + Z.of_nat 0) with 4 in Hrun.
      rewrite Hrun. reflexivity.
  - reflexivity.
Defined.

(** X5. When [socket], [bind] or [listen] fails the select server never
    enters its loop: whatever connections are waiting, it makes only the
    first set-up calls, in order, reports the error and exits with
    [EXIT_FAILURE]. *)
Theorem setup_failure_skips_loop (s : os_setup) (junk : gset Z * gset Z * Z)
    (os : list os_iter) :
  socket_result s = -1 ∨ bind_result s = -1 ∨ listen_result s = -1 ->
  ∃ (tr : list event) (msg : string),
    main s junk os
    = (tr ++ [EvPerror msg; EvExit EXIT_FAILURE], Exited EXIT_FAILURE) ∧
    EXIT_FAILURE ≠ 0 ∧
    tr `prefix_of`
      [EvSocket; EvBind (socket_result s) PORT; EvListen (socket_result s) 10].
Proof.
  intros H. unfold main, setup.
  case_bool_decide as H1.
  { exists [EvSocket], "socket"%string. repeat split; [done|by eexists]. }
  case_bool_decide as H2.
  { eexists [_; _], "Bind"%string. repeat split; [done|by eexists]. }
  case_bool_decide as H3.
  { eexists [_; _; _], "listen"%string. repeat split; [done|by eexists]. }
  by destruct H as [|[|]].
Qed.

Lemma setup_failure_skips_loop_witness :
  ∃ (tr : list event) (msg : string),
    main (mk_os_setup 3 (-1) 0) Scenario.no_junk [Scenario.connect 4]
    = (tr ++ [EvPerror msg; EvExit EXIT_FAILURE], Exited EXIT_FAILURE) ∧
    EXIT_FAILURE ≠ 0 ∧
    tr `prefix_of` [EvSocket; EvBind 3 PORT; EvListen 3 10].
Proof.
  apply (setup_failure_skips_loop (mk_os_setup 3 (-1) 0) Scenario.no_junk
           [Scenario.connect 4]).
  right. left. reflexivity.
Defined.

End LoopMore.

Section CallsMore.
Import SelectServer.
Implicit Types (tbl : list clientstate_t) (c : clientstate_t) (st : loop_state).

Lemma read_calls_app tr1 tr2 :
  read_calls (tr1 ++ tr2) = read_calls tr1 ++ read_calls tr2.
Proof. apply omap_app. Qed.

Lemma closed_fds_app tr1 tr2 :
  closed_fds (tr1 ++ tr2) = closed_fds tr1 ++ closed_fds tr2.
Proof. apply omap_app. Qed.

Lemma read_calls_listener listen_fd rfds o tbl :
  read_calls (dispatch_listener listen_fd rfds o tbl).1.2 = [].
Proof. unfold dispatch_listener. by repeat case_bool_decide. Qed.

Lemma read_calls_slot_events rfds o tbl (Q : Z * nat * nat -> Prop) (l : list nat) :
  (∀ i c, i ∈ l -> tbl !! i = Some c -> is_ready rfds c = true ->
          Q (fd c, i, BUFF_SIZE)) ->
  Forall Q (read_calls (concat (map (slot_events rfds o tbl) l))).
Proof.
  induction l as [|i l IH]; intros HQ; [constructor|].
  cbn [map concat]. rewrite read_calls_app. apply Forall_app. split.
  - unfold slot_events. destruct (tbl !! i) as [c|] eqn:Hi; [|constructor].
    unfold serve. destruct (is_ready rfds c) eqn:Hr; [|constructor].
    case_bool_decide; repeat constructor; apply HQ; try done; by left.
  - apply IH. intros j c Hj. apply HQ. by right.
Qed.

Lemma closed_fds_slot_events rfds o tbl (l : list nat) d :
  d ∈ closed_fds (concat (map (slot_events rfds o tbl) l)) ->
  ∃ i c, tbl !! i = Some c ∧ fd c = d ∧ d ≠ -1.
Proof.
  induction l as [|i l IH]; cbn [map concat]; [by intros ?%elem_of_nil|].
  rewrite closed_fds_app, elem_of_app. intros [Hd|Hd]; [|by apply IH].
  unfold slot_events in Hd. destruct (tbl !! i) as [c|] eqn:Hi;
    [|by apply elem_of_nil in Hd].
  unfold serve, is_ready in Hd.
  destruct (bool_decide (fd c ≠ -1)) eqn:Hfd; cbn [andb] in Hd;
    [|by apply elem_of_nil in Hd].
  apply bool_decide_eq_true in Hfd.
  destruct (bool_decide (fd c ∈ rfds)); [|by apply elem_of_nil in Hd].
  case_bool_decide; cbn in Hd.
  - apply list_elem_of_singleton in Hd as ->. by exists i, c.
  - by apply elem_of_nil in Hd.
Qed.

(** X6. In a pass of the loop every [read] is on a descriptor that [select]
    reported readable in that pass and that is not [-1], goes into a slot
    of the table, and asks for exactly the size of the slot's buffer. *)
Theorem reads_only_reported (listen_fd : Z) (o : os_iter) (st : loop_state)
    (ready : gset Z) (tr : list event) (out : outcome) :
  length (clientStates st) = MAX_CLIENTS ->
  sel_ready o = Some ready ->
  iteration listen_fd o st = (tr, out) ->
  Forall (fun call : Z * nat * nat =>
            call.1.1 ∈ ready ∧ call.1.1 ≠ -1 ∧
            (call.1.2 < MAX_CLIENTS)%nat ∧ call.2 = BUFF_SIZE)
    (read_calls tr).
Proof.
  intros Hlen Hsel. rewrite iteration_unfold, Hsel. cbv zeta.
  set (q := build_read_fds listen_fd st).
  set (rf := read_fds q ∩ ready).
  pose proof (read_calls_listener listen_fd rf o (clientStates st)) as Hnr.
  pose proof (dispatch_listener_length listen_fd rf o _ Hlen) as Hlen1.
  destruct (dispatch_listener listen_fd rf o (clientStates st)) as [[t1 tr1] go].
  cbn [fst snd] in *.
  destruct go; intros [= <- _].
  - change (Forall (fun call : Z * nat * nat =>
                      call.1.1 ∈ ready ∧ call.1.1 ≠ -1 ∧
                      (call.1.2 < MAX_CLIENTS)%nat ∧ call.2 = BUFF_SIZE)
              (read_calls (tr1 ++ (dispatch_clients rf o t1).2))).
    rewrite read_calls_app, Hnr, dispatch_clients_eq by done. cbn [app snd].
    apply read_calls_slot_events. intros i c Hi Hc Hr. cbn [fst snd].
    apply elem_of_seq in Hi. unfold is_ready in Hr.
    apply andb_true_iff in Hr as [Hfd Hin].
    apply bool_decide_eq_true in Hfd. apply bool_decide_eq_true in Hin.
    apply elem_of_intersection in Hin as [_ Hin].
    repeat split; try done. lia.
  - change (Forall (fun call : Z * nat * nat =>
                      call.1.1 ∈ ready ∧ call.1.1 ≠ -1 ∧
                      (call.1.2 < MAX_CLIENTS)%nat ∧ call.2 = BUFF_SIZE)
              (read_calls tr1)).
    rewrite Hnr. constructor.
Qed.

Lemma reads_only_reported_witness :
  Forall (fun call : Z * nat * nat =>
            call.1.1 ∈ ({[3; 4]} : gset Z) ∧ call.1.1 ≠ -1 ∧
            (call.1.2 < MAX_CLIENTS)%nat ∧ call.2 = BUFF_SIZE)
    (read_calls (iteration 3 Scenario.both_ready Scenario.one_client).1).
Proof.
  apply (reads_only_reported 3 Scenario.both_ready Scenario.one_client {[3; 4]}
           _ (iteration 3 Scenario.both_ready Scenario.one_client).2).
  - by vm_compute.
  - reflexivity.
  - by destruct (iteration 3 Scenario.both_ready Scenario.one_client).
Defined.

(** X7. The server closes only descriptors it owns: every descriptor
    closed in a pass differs from [-1] and is either the one [accept] just
    returned or the descriptor of a slot of the table at the start of the
    pass. *)
Theorem closes_only_owned (listen_fd : Z) (o : os_iter) (st : loop_state)
    (ready : gset Z) (tr : list event) (out : outcome) (d : Z) :
  length (clientStates st) = MAX_CLIENTS ->
  sel_ready o = Some ready ->
  iteration listen_fd o st = (tr, out) ->
  d ∈ closed_fds tr ->
  d ≠ -1 ∧
  (d = acc_result o ∨ ∃ i c, clientStates st !! i = Some c ∧ fd c = d).
Proof.
  intros Hlen Hsel. rewrite iteration_unfold, Hsel. cbv zeta.
  set (q := build_read_fds listen_fd st).
  set (rf := read_fds q ∩ ready).
  assert (∀ tr1 t1,
            (d ∈ closed_fds tr1 -> d ≠ -1 ∧ d = acc_result o) ->
            (∀ i c, t1 !! i = Some c -> fd c ≠ -1 ->
                    fd c = acc_result o ∨ clientStates st !! i = Some c) ->
            length t1 = MAX_CLIENTS ->
            d ∈ closed_fds (tr1 ++ (dispatch_clients rf o t1).2) ->
            d ≠ -1 ∧
            (d = acc_result o ∨ ∃ i c, clientStates st !! i = Some c ∧ fd c = d))
    as Hgen.
  { intros tr1 t1 Htr1 Ht1 Hlen1. rewrite closed_fds_app, elem_of_app.
    intros [Hd|Hd]; [destruct (Htr1 Hd); by split; [|left]|].
    rewrite dispatch_clients_eq in Hd by done. cbn [snd] in Hd.
    apply closed_fds_slot_events in Hd as (i & c & Hi & <- & Hne).
    split; [done|]. destruct (Ht1 i c Hi Hne) as [|]; [by left|].
    right. by exists i, c. }
  destruct (dispatch_listener_cases listen_fd rf o (clientStates st) Hlen)
    as [[_ ->]|[(_ & Ha & ->)|[(_ & Ha & _ & _ & ->)
       |(k & ck & _ & Ha & _ & _ & Hk & _ & _ & ->)]]];
    cbn [fst snd]; intros [= <- _].
  - apply (Hgen [] (clientStates st)); try done.
    + by intros ?%elem_of_nil.
    + intros i c Hi _. by right.
  - by intros ?%elem_of_nil.
  - apply (Hgen [EvAccept listen_fd; EvPrintf LogNewConnection;
                 EvPrintf LogServerFull; EvClose (acc_result o)]
             (clientStates st)); try done.
    + cbn. by intros ->%list_elem_of_singleton.
    + intros i c Hi _. by right.
  - apply (Hgen [EvAccept listen_fd; EvPrintf LogNewConnection]
             (<[k:=mk_clientstate (acc_result o) STATE_CONNECTED (buffer ck)]>
                (clientStates st))); try done.
    + by intros ?%elem_of_nil.
    + intros i c Hi _. destruct (decide (k = i)) as [->|Hne].
      * rewrite list_lookup_insert_eq in Hi by (by eapply lookup_lt_Some).
        injection Hi as <-. by left.
      * rewrite list_lookup_insert_ne in Hi by done. by right.
    + by rewrite length_insert.
Qed.

Lemma closes_only_owned_witness :
  4 ≠ -1 ∧
  (4 = acc_result (Scenario.client_reads (RdData []))
   ∨ ∃ i c, clientStates Scenario.one_client !! i = Some c ∧ fd c = 4).
Proof.
  apply (closes_only_owned 3 (Scenario.client_reads (RdData []))
           Scenario.one_client {[4]} Scenario.release_run.1
           Scenario.release_run.2 4).
  - by vm_compute.
  - reflexivity.
  - unfold Scenario.release_run.
    by destruct (iteration 3 (Scenario.client_reads (RdData [])) Scenario.one_client).
  - assert (closed_fds Scenario.release_run.1 = [4]) as -> by (by vm_compute).
    by apply list_elem_of_singleton.
Defined.

End CallsMore.

Section CountMore.
Import SelectServer.
Implicit Types (tbl : list clientstate_t) (c : clientstate_t) (st : loop_state).

Lemma occupied_app tbl1 tbl2 :
  occupied (tbl1 ++ tbl2) = (occupied tbl1 + occupied tbl2)%nat.
Proof. unfold occupied. by rewrite filter_app, length_app. Qed.

Lemma occupied_cons c tbl : occupied (c :: tbl) = (in_use c + occupied tbl)%nat.
Proof.
  unfold occupied, in_use. rewrite filter_cons.
  destruct (decide (fd c ≠ -1)).
  - by rewrite bool_decide_eq_true_2.
  - by rewrite bool_decide_eq_false_2.
Qed.

(** Replacing one slot changes the count by that slot alone. *)
Lemma occupied_insert tbl i c c' :
  tbl !! i = Some c ->
  (occupied (<[i := c']> tbl) + in_use c = occupied tbl + in_use c')%nat.
Proof.
  intros Hi. rewrite insert_take_drop by (by eapply lookup_lt_Some).
  rewrite <- (take_drop_middle tbl i c Hi) at 3.
  rewrite !occupied_app, !occupied_cons. lia.
Qed.

Lemma serve_balance rfds o i c :
  (in_use (serve rfds o i c).1 + length (closed_fds (serve rfds o i c).2)
   = in_use c)%nat.
Proof.
  unfold serve, is_ready, in_use.
  destruct (bool_decide (fd c ≠ -1)) eqn:Hfd; cbn [andb fst snd];
    [|by rewrite Hfd].
  destruct (bool_decide (fd c ∈ rfds)); cbn [fst snd]; [|by rewrite Hfd].
  destruct (bool_decide (_ ≤ 0)); cbn [fst snd fd]; [|by rewrite Hfd].
  by rewrite bool_decide_eq_false_2 by (intros H'; by apply H').
Qed.

(** X8. Storing an accepted connection raises the number of slots in use
    by exactly one and changes no slot other than the one [find_free_slot]
    answered, which now holds the new descriptor. *)
Theorem accept_adds_one (listen_fd : Z) (rfds : gset Z) (o : os_iter)
    (tbl : list clientstate_t) :
  length tbl = MAX_CLIENTS ->
  listen_fd ∈ rfds ->
  acc_result o ≠ -1 ->
  (occupied tbl < MAX_CLIENTS)%nat ->
  ∃ k : nat,
    find_free_slot tbl = Z.of_nat k ∧
    occupied (dispatch_listener listen_fd rfds o tbl).1.1 = S (occupied tbl) ∧
    fd <$> (dispatch_listener listen_fd rfds o tbl).1.1 !! k = Some (acc_result o) ∧
    ∀ j, j ≠ k -> (dispatch_listener listen_fd rfds o tbl).1.1 !! j = tbl !! j.
Proof.
  intros Hlen Hl Ha Hocc.
  destruct (dispatch_listener_cases listen_fd rfds o tbl Hlen)
    as [[Hin _]|[(_ & Ha' & _)|[(_ & _ & _ & Hall & _)
       |(k & c & _ & _ & Hf & Hk & Hkc & Hfree & _ & ->)]]]; try done.
  - apply occupied_full in Hall. lia.
  - exists k. cbn [fst snd]. split; [done|]. split; [|split].
    + pose proof (occupied_insert tbl k c
                    (mk_clientstate (acc_result o) STATE_CONNECTED (buffer c)) Hkc)
        as Hbal.
      unfold in_use in Hbal. cbn [fd] in Hbal.
      rewrite (bool_decide_eq_false_2 (fd c ≠ -1)) in Hbal
        by (intros H'; by apply H').
      rewrite (bool_decide_eq_true_2 (acc_result o ≠ -1)) in Hbal by done.
      lia.
    + by rewrite list_lookup_insert_eq by (by eapply lookup_lt_Some).
    + intros j Hj. by rewrite list_lookup_insert_ne.
Qed.

Lemma accept_adds_one_witness :
  ∃ k : nat,
    find_free_slot (clientStates Scenario.one_client) = Z.of_nat k ∧
    occupied (dispatch_listener 3 {[3; 4]} Scenario.both_ready
                (clientStates Scenario.one_client)).1.1
    = S (occupied (clientStates Scenario.one_client)) ∧
    fd <$> (dispatch_listener 3 {[3; 4]} Scenario.both_ready
              (clientStates Scenario.one_client)).1.1 !! k
    = Some (acc_result Scenario.both_ready) ∧
    ∀ j, j ≠ k ->
         (dispatch_listener 3 {[3; 4]} Scenario.both_ready
            (clientStates Scenario.one_client)).1.1 !! j
         = clientStates Scenario.one_client !! j.
Proof.
  apply (accept_adds_one 3 {[3; 4]} Scenario.both_ready
           (clientStates Scenario.one_client)).
  - by vm_compute.
  - apply elem_of_union. left. by apply elem_of_singleton.
  - discriminate.
  - assert (occupied (clientStates Scenario.one_client) = 1%nat) as ->
      by (by vm_compute).
    vm_compute. lia.
Defined.

(** X9. The client dispatch releases a slot exactly when it closes a
    descriptor: the number of slots in use after it plus the number of
    [close] calls it made is the number of slots in use before it. *)
Theorem closes_match_releases (rfds : gset Z) (o : os_iter)
    (tbl : list clientstate_t) :
  length tbl = MAX_CLIENTS ->
  (occupied (dispatch_clients rfds o tbl).1
   + length (closed_fds (dispatch_clients rfds o tbl).2)
   = occupied tbl)%nat.
Proof.
  intros Hlen. unfold dispatch_clients.
  assert (length (for_loop MAX_CLIENTS (client_body rfds o) (tbl, [])).1
          = MAX_CLIENTS ∧
          (occupied (for_loop MAX_CLIENTS (client_body rfds o) (tbl, [])).1
           + length (closed_fds
                       (for_loop MAX_CLIENTS (client_body rfds o) (tbl, [])).2)
           = occupied tbl)%nat) as [_ H]; [|exact H].
  apply (for_loop_inv
           (fun _ (a : list clientstate_t * list event) =>
              length a.1 = MAX_CLIENTS ∧
              (occupied a.1 + length (closed_fds a.2) = occupied tbl)%nat)).
  - cbn [fst snd]. split; [done|].
    change (closed_fds []) with (@nil Z). cbn [length]. lia.
  - intros i [t tr] Hi [Hl Hb]. cbn [fst snd] in *.
    destruct (lookup_lt_is_Some_2 t i ltac:(lia)) as [c Hc].
    rewrite (client_body_serve rfds o i t tr c Hc). cbn [fst snd].
    split; [by rewrite length_insert|].
    rewrite closed_fds_app, length_app.
    pose proof (occupied_insert t i c (serve rfds o i c).1 Hc).
    pose proof (serve_balance rfds o i c). lia.
Qed.

Lemma closes_match_releases_witness :
  (occupied (dispatch_clients {[4%Z]} (Scenario.client_reads (RdData []))
               (clientStates Scenario.one_client)).1
   + length (closed_fds
               (dispatch_clients {[4%Z]} (Scenario.client_reads (RdData []))
                  (clientStates Scenario.one_client)).2)
   = occupied (clientStates Scenario.one_client))%nat.
Proof.
  apply (closes_match_releases {[4]} (Scenario.client_reads (RdData []))
           (clientStates Scenario.one_client)).
  by vm_compute.
Defined.

End CountMore.

Section BufferMore.
Import SelectServer.
Implicit Types (tbl : list clientstate_t) (c : clientstate_t) (st : loop_state).

(** A read into a buffer of [n] bytes, asking for [n], leaves [n] bytes. *)
Lemma os_read_length n r buf :
  length buf = n -> length (os_read n r buf).2 = n.
Proof.
  intros Hn. destruct r as [|bs]; cbn [os_read snd]; [done|].
  rewrite length_app, length_drop, length_take. lia.
Qed.

Lemma well_sized_listener listen_fd rfds o tbl :
  length tbl = MAX_CLIENTS ->
  well_sized tbl -> well_sized (dispatch_listener listen_fd rfds o tbl).1.1.
Proof.
  intros Hlen Hws.
  destruct (dispatch_listener_cases listen_fd rfds o tbl Hlen)
    as [[_ ->]|[(_ & _ & ->)|[(_ & _ & _ & _ & ->)
       |(k & c & _ & _ & _ & _ & Hk & _ & _ & ->)]]];
    cbn [fst snd]; try done.
  apply Forall_insert; [done|]. cbn [buffer].
  by apply (Forall_lookup_1 _ _ _ _ Hws Hk).
Qed.

Lemma well_sized_clients rfds o tbl :
  length tbl = MAX_CLIENTS ->
  well_sized tbl -> well_sized (dispatch_clients rfds o tbl).1.
Proof.
  intros Hlen Hws. rewrite dispatch_clients_eq by done. cbn [fst].
  apply Forall_lookup. intros j c'. rewrite lookup_served_upto.
  destruct (tbl !! j) as [c|] eqn:Hj; [|done]. cbn. intros [= <-].
  pose proof (Forall_lookup_1 _ _ _ _ Hws Hj) as Hc. cbn in Hc.
  destruct (bool_decide (j < MAX_CLIENTS)%nat); [|done]. unfold serve.
  destruct (is_ready rfds c); [|done].
  destruct (bool_decide (_ ≤ 0)); cbn [fst buffer]; by apply os_read_length.
Qed.

Lemma well_sized_iteration listen_fd o st tr st' :
  length (clientStates st) = MAX_CLIENTS ->
  well_sized (clientStates st) ->
  iteration listen_fd o st = (tr, Running st') ->
  well_sized (clientStates st').
Proof.
  intros Hlen Hws. rewrite iteration_unfold. cbv zeta.
  destruct (sel_ready o) as [ready|]; [|done].
  set (rf := read_fds (build_read_fds listen_fd st) ∩ ready).
  pose proof (well_sized_listener listen_fd rf o _ Hlen Hws) as H1.
  pose proof (dispatch_listener_length listen_fd rf o _ Hlen) as Hlen1.
  destruct (dispatch_listener listen_fd rf o (clientStates st)) as [[t1 tr1] go].
  cbn [fst snd] in *.
  destruct go; intros [= _ <-]; cbn [clientStates]; [|done].
  by apply well_sized_clients.
Qed.

Lemma well_sized_run listen_fd os st tr st' :
  table_inv (clientStates st) ->
  well_sized (clientStates st) ->
  run listen_fd os st = (tr, Running st') ->
  well_sized (clientStates st').
Proof.
  revert st tr. induction os as [|o os IH]; intros st tr Hinv Hws; cbn [run].
  - by intros [= _ <-].
  - destruct (iteration listen_fd o st) as [tr1 [st1|code]] eqn:Hit; [|done].
    destruct (run listen_fd os st1) as [tr2 out] eqn:Hrun.
    intros [= _ ->]. eapply IH; [| |exact Hrun].
    + by eapply iteration_inv.
    + eapply well_sized_iteration; [apply Hinv|exact Hws|exact Hit].
Qed.

(** X10. No read ever changes the size of a slot's buffer: in every table
    the server reaches, every buffer still has [BUFF_SIZE] bytes. *)
Theorem buffers_keep_size (s : os_setup) (junk : gset Z * gset Z * Z)
    (os : list os_iter) (tr : list event) (st : loop_state) :
  main s junk os = (tr, Running st) ->
  Forall (fun c => length (buffer c) = BUFF_SIZE) (clientStates st).
Proof.
  unfold main.
  destruct (setup s junk) as [[tr0 [st0|code]] lfd] eqn:Hs; [|done].
  destruct (run lfd os st0) as [tr1 out] eqn:Hrun. intros [= _ ->].
  destruct (setup_Running _ _ _ _ _ Hs) as [Htbl _].
  eapply well_sized_run; [| |exact Hrun]; rewrite Htbl.
  - apply table_inv_fresh.
  - apply Forall_replicate. cbn. apply length_replicate.
Qed.

Lemma buffers_keep_size_witness :
  Forall (fun c => length (buffer c) = BUFF_SIZE) (clientStates Scenario.full_state).
Proof.
  destruct fill_table_run as (tr & st & Hrun & _).
  apply (buffers_keep_size Scenario.setup_ok Scenario.no_junk
           Scenario.fill_table tr).
  unfold Scenario.full_state, Scenario.state_of. by rewrite Hrun.
Defined.

Lemma c_string_nul (data rest : list byte) :
  Forall (fun b => b ≠ x00) data -> c_string (data ++ x00 :: rest) = data.
Proof.
  induction 1 as [|b data Hb _ IH]; [done|].
  cbn [app c_string]. destruct (Byte.eqb b x00) eqn:Heq.
  - by apply Byte.byte_dec_bl in Heq.
  - by rewrite IH.
Qed.

(** X11. The first read on a slot whose buffer is still zeroed hands the
    data handler exactly the bytes received, when they are fewer than
    [BUFF_SIZE], at least one, and none of them is NUL; the slot keeps its
    descriptor and state. *)
Theorem first_read_prints_data (rfds : gset Z) (o : os_iter) (i : nat)
    (tbl : list clientstate_t) (tr : list event) (c : clientstate_t)
    (data : list byte) :
  tbl !! i = Some c ->
  fd c ≠ -1 ->
  fd c ∈ rfds ->
  buffer c = replicate BUFF_SIZE x00 ->
  rd_result o i = RdData data ->
  data ≠ [] ->
  (length data < BUFF_SIZE)%nat ->
  Forall (fun b => b ≠ x00) data ->
  client_body rfds o i (tbl, tr)
  = (<[i := mk_clientstate (fd c) (state c)
              (data ++ replicate (BUFF_SIZE - length data) x00)]> tbl,
     tr ++ [EvRead (fd c) i BUFF_SIZE; EvPrintf (LogReceived data)]).
Proof.
  intros Hi Hfd Hin Hbuf Hrd Hne Hlen Hnul.
  rewrite (client_body_serve rfds o i tbl tr c Hi).
  unfold serve, is_ready. rewrite !bool_decide_eq_true_2 by done. cbn [andb].
  rewrite Hrd, Hbuf. cbn [os_read fst snd].
  rewrite take_ge by lia. rewrite drop_replicate.
  rewrite bool_decide_eq_false_2 by (destruct data; [done|cbn; lia]).
  cbn [fst snd]. do 3 f_equal.
  destruct (BUFF_SIZE - length data)%nat as [|m] eqn:Hm; [lia|].
  cbn [replicate]. by rewrite c_string_nul.
Qed.

Lemma first_read_prints_data_witness :
  client_body {[4]} (Scenario.client_reads (RdData Scenario.hi)) 0
    (clientStates Scenario.one_client, [])
  = (<[0%nat := mk_clientstate 4 STATE_CONNECTED
                 (Scenario.hi ++ replicate (BUFF_SIZE - length Scenario.hi) x00)]>
       (clientStates Scenario.one_client),
     [] ++ [EvRead 4 0 BUFF_SIZE; EvPrintf (LogReceived Scenario.hi)]).
Proof.
  apply (first_read_prints_data {[4]} (Scenario.client_reads (RdData Scenario.hi))
           0 (clientStates Scenario.one_client) []
           (mk_clientstate 4 STATE_CONNECTED (replicate BUFF_SIZE x00))
           Scenario.hi).
  - by vm_compute.
  - discriminate.
  - by apply elem_of_singleton.
  - reflexivity.
  - reflexivity.
  - discriminate.
  - vm_compute. lia.
  - repeat constructor; discriminate.
Defined.

(** X12. A pass leaves alone every slot it has no business with: a slot
    that is not both in use and reported readable, and that is not the one
    [find_free_slot] answers, is exactly the same after the pass. *)
Theorem idle_slot_untouched (listen_fd : Z) (o : os_iter) (st : loop_state)
    (ready : gset Z) (i : nat) (c : clientstate_t)
    (tr : list event) (st' : loop_state) :
  length (clientStates st) = MAX_CLIENTS ->
  sel_ready o = Some ready ->
  clientStates st !! i = Some c ->
  is_ready ready c = false ->
  find_free_slot (clientStates st) ≠ Z.of_nat i ->
  iteration listen_fd o st = (tr, Running st') ->
  clientStates st' !! i = Some c.
Proof.
  intros Hlen Hsel Hi Hnr Hfree. rewrite iteration_unfold, Hsel. cbv zeta.
  set (q := build_read_fds listen_fd st).
  set (rf := read_fds q ∩ ready).
  assert (is_ready rf c = false) as Hnr'.
  { unfold is_ready in *. apply andb_false_iff in Hnr as [Hnr|Hnr].
    - by rewrite Hnr.
    - apply bool_decide_eq_false in Hnr.
      rewrite (bool_decide_eq_false_2 (fd c ∈ rf)); [by rewrite andb_false_r|].
      intros Hin. apply elem_of_intersection in Hin as [_ Hin]. by apply Hnr. }
  pose proof (dispatch_listener_length listen_fd rf o _ Hlen) as Hlen1.
  assert ((dispatch_listener listen_fd rf o (clientStates st)).1.1 !! i = Some c)
    as Hi1.
  { destruct (dispatch_listener_cases listen_fd rf o (clientStates st) Hlen)
      as [[_ ->]|[(_ & _ & ->)|[(_ & _ & _ & _ & ->)
         |(k & ck & _ & _ & Hf & _ & _ & _ & _ & ->)]]];
      cbn [fst snd]; try done.
    rewrite list_lookup_insert_ne; [done|]. intros ->. by apply Hfree. }
  destruct (dispatch_listener listen_fd rf o (clientStates st)) as [[t1 tr1] go].
  cbn [fst snd] in *.
  destruct go; intros [= _ <-]; cbn [clientStates]; [|done].
  rewrite (dispatch_clients_lookup rf o t1 i c Hlen1 Hi1).
  unfold serve. by rewrite Hnr'.
Qed.

Lemma idle_slot_untouched_witness :
  clientStates
    (Scenario.state_of
       (iteration 3 (mk_os_iter (Some {[3]}) 5 (fun _ => RdErr)) Scenario.one_client))
    !! 0%nat
  = Some (mk_clientstate 4 STATE_CONNECTED (replicate BUFF_SIZE x00)).
Proof.
  apply (idle_slot_untouched 3 (mk_os_iter (Some {[3]}) 5 (fun _ => RdErr))
           Scenario.one_client {[3]} 0
           (mk_clientstate 4 STATE_CONNECTED (replicate BUFF_SIZE x00))
           (iteration 3 (mk_os_iter (Some {[3]}) 5 (fun _ => RdErr))
              Scenario.one_client).1).
  - by vm_compute.
  - reflexivity.
  - by vm_compute.
  - by vm_compute.
  - by vm_compute.
  - unfold Scenario.state_of.
    assert (match (iteration 3 (mk_os_iter (Some {[3]}) 5 (fun _ => RdErr))
                     Scenario.one_client).2
            with Running _ => true | Exited _ => false end = true) as Hrun
      by (by vm_compute).
    destruct (iteration 3 (mk_os_iter (Some {[3]}) 5 (fun _ => RdErr))
                Scenario.one_client) as [tr [st'|code]]; [reflexivity|discriminate].
Defined.

End BufferMore.

(** * Further properties of the two small programs *)

Section ServerMore.
Import Proto.







(** X14. When [socket] or [bind] fails, [server.c] returns -1, a non-zero
    exit status, without calling [accept] or writing anything; after a
    failed [bind] it closes the socket it had created, and after a failed
    [socket] it closes nothing. *)
Theorem server_setup_failures (e : endianness) (sock bind_r listen_r : Z)
    (accepts : list (Z * Z)) :
  sock = -1 ∨ bind_r = -1 ->
  (SimpleServer.main e sock bind_r listen_r accepts).2 = Some (-1) ∧
  exit_status (-1) ≠ 0 ∧
  accept_calls (SimpleServer.main e sock bind_r listen_r accepts).1 = 0%nat ∧
  written (SimpleServer.main e sock bind_r listen_r accepts).1 = [] ∧
  closed_fds (SimpleServer.main e sock bind_r listen_r accepts).1
  = if bool_decide (sock = -1) then [] else [sock].
Proof.
  intros H. unfold SimpleServer.main.
  case_bool_decide as Hs; [done|].
  case_bool_decide as Hb; [done|].
  by destruct H.
Qed.

Lemma server_setup_failures_witness :
  (SimpleServer.main BigEndian 3 (-1) 0 [(4, 16)]).2 = Some (-1) ∧
  exit_status (-1) ≠ 0 ∧
  accept_calls (SimpleServer.main BigEndian 3 (-1) 0 [(4, 16)]).1 = 0%nat ∧
  written (SimpleServer.main BigEndian 3 (-1) 0 [(4, 16)]).1 = [] ∧
  closed_fds (SimpleServer.main BigEndian 3 (-1) 0 [(4, 16)]).1
  = if bool_decide (3 = -1) then [] else [3].
Proof.
  apply (server_setup_failures BigEndian 3 (-1) 0 [(4, 16)]).
  right. reflexivity.
Defined.



End ServerMore.

Section ClientMore.
Import Proto.

Lemma length_be_bytes w v : length (be_bytes w v) = w.
Proof. unfold be_bytes. by rewrite length_rev, length_le_bytes. Qed.

(** The client's verdict is a function of the type and payload fields of
    the buffer. *)
Lemma handle_client_fields e fd rx rx' :
  SimpleClient.hdr_type e (SimpleClient.received e rx)
  = SimpleClient.hdr_type e (SimpleClient.received e rx') ->
  SimpleClient.hdr_data e (SimpleClient.received e rx)
  = SimpleClient.hdr_data e (SimpleClient.received e rx') ->
  SimpleClient.handle_client e fd rx = SimpleClient.handle_client e fd rx'.
Proof. unfold SimpleClient.handle_client. by intros -> ->. Qed.

(** X16. A frame whose type is not 0 is reported as a protocol mismatch
    and nothing else, whatever its length field and payload: the type is
    checked before the version. *)
Theorem protocol_mismatch (e : endianness) (fd t l v : Z) :
  0 < t < 2 ^ 32 ->
  SimpleClient.handle_client e fd (RdData (frame t l v))
  = [EvRead fd 12; EvPrintf LogProtocolMismatch].
Proof.
  intros Ht. unfold SimpleClient.handle_client, frame.
  pose proof (be_value_be_bytes 4 t) as Hval.
  pose proof (length_be_bytes 4 t) as Hlt.
  pose proof (length_be_bytes 2 l) as Hll.
  pose proof (length_be_bytes 4 v) as Hlv.
  destruct (be_bytes 4 t) as [|t0 [|t1 [|t2 [|t3 [|]]]]]; try discriminate Hlt.
  destruct (be_bytes 2 l) as [|l0 [|l1 [|]]]; try discriminate Hll.
  destruct (be_bytes 4 v) as [|d0 [|d1 [|d2 [|d3 [|]]]]]; try discriminate Hlv.
  change ([t0; t1; t2; t3] ++ [l0; l1] ++ [x00; x00] ++ [d0; d1; d2; d3])
    with ([t0; t1; t2; t3; l0; l1; x00; x00; d0; d1; d2; d3]).
  rewrite <- (app_nil_r [t0; t1; t2; t3; l0; l1; x00; x00; d0; d1; d2; d3]).
  destruct (received_fields e t0 t1 t2 t3 l0 l1 x00 x00 d0 d1 d2 d3 [])
    as (-> & _ & _).
  rewrite Hval. change (256 ^ Z.of_nat 4) with (2 ^ 32).
  rewrite Z.mod_small by lia.
  rewrite bool_decide_eq_true_2; [reflexivity|]. unfold PROTO_HELLO. lia.
Qed.

Lemma protocol_mismatch_witness :
  SimpleClient.handle_client LittleEndian 3 (RdData (frame 7 4 1))
  = [EvRead 3 12; EvPrintf LogProtocolMismatch].
Proof.
  apply (protocol_mismatch LittleEndian 3 7 4 1). split; [lia|reflexivity].
Defined.

(** X17. The client never looks at the length field, at the two padding
    bytes, or at anything after the twelfth byte: two inputs with the same
    four type bytes and the same four payload bytes at offset 8 get the
    same verdict. *)
Theorem length_field_ignored (e : endianness) (fd : Z)
    (ty len pad len' pad' data junk junk' : list byte) :
  length ty = 4%nat ->
  length len = 2%nat -> length pad = 2%nat ->
  length len' = 2%nat -> length pad' = 2%nat ->
  length data = 4%nat ->
  SimpleClient.handle_client e fd (RdData (ty ++ len ++ pad ++ data ++ junk))
  = SimpleClient.handle_client e fd (RdData (ty ++ len' ++ pad' ++ data ++ junk')).
Proof.
  intros Hty Hlen Hpad Hlen' Hpad' Hdata.
  destruct ty as [|t0 [|t1 [|t2 [|t3 [|]]]]]; try discriminate Hty.
  destruct len as [|l0 [|l1 [|]]]; try discriminate Hlen.
  destruct pad as [|p0 [|p1 [|]]]; try discriminate Hpad.
  destruct len' as [|l0' [|l1' [|]]]; try discriminate Hlen'.
  destruct pad' as [|p0' [|p1' [|]]]; try discriminate Hpad'.
  destruct data as [|d0 [|d1 [|d2 [|d3 [|]]]]]; try discriminate Hdata.
  change ([t0; t1; t2; t3] ++ [l0; l1] ++ [p0; p1] ++ [d0; d1; d2; d3] ++ junk)
    with ([t0; t1; t2; t3; l0; l1; p0; p1; d0; d1; d2; d3] ++ junk).
  change ([t0; t1; t2; t3] ++ [l0'; l1'] ++ [p0'; p1'] ++ [d0; d1; d2; d3] ++ junk')
    with ([t0; t1; t2; t3; l0'; l1'; p0'; p1'; d0; d1; d2; d3] ++ junk').
  destruct (received_fields e t0 t1 t2 t3 l0 l1 p0 p1 d0 d1 d2 d3 junk)
    as (Ht & _ & Hd).
  destruct (received_fields e t0 t1 t2 t3 l0' l1' p0' p1' d0 d1 d2 d3 junk')
    as (Ht' & _ & Hd').
  apply handle_client_fields; congruence.
Qed.

Lemma length_field_ignored_witness :
  SimpleClient.handle_client BigEndian 3
    (RdData ([x00; x00; x00; x00] ++ [x00; x04] ++ [x00; x00]
             ++ [x00; x00; x00; x01] ++ []))
  = SimpleClient.handle_client BigEndian 3
      (RdData ([x00; x00; x00; x00] ++ [xff; xff] ++ [x12; x34]
               ++ [x00; x00; x00; x01] ++ [x99])).
Proof.
  by apply (length_field_ignored BigEndian 3).
Defined.

Lemma os_read_wire rx :
  (os_read 12 rx (replicate 4096 x00)).2
  = (os_read 12 (RdData (SimpleClient.wire rx)) (replicate 4096 x00)).2.
Proof.
  destruct rx as [|bs]; [reflexivity|].
  unfold SimpleClient.wire. cbn [os_read snd].
  assert (length (take 12 (bs ++ replicate 12 x00)) = 12%nat) as Hw.
  { rewrite length_take, length_app, length_replicate. lia. }
  rewrite (take_ge (take 12 (bs ++ replicate 12 x00))) by lia.
  rewrite Hw, take_app, take_replicate, length_take, !drop_replicate.
  rewrite <- app_assoc, <- replicate_add. do 2 f_equal.
  destruct (decide (length bs ≤ 12)%nat).
  - rewrite !Nat.min_r by lia. rewrite Nat.min_l by lia. lia.
  - rewrite !Nat.min_l by lia. lia.
Qed.

(** X18. The client works on twelve bytes and does not check what [read]
    returned: its verdict on any answer of [read] is its verdict on the
    first twelve bytes delivered, completed with zeros when fewer came.
    A failed read and an empty read are therefore taken for a frame of
    type 0 and version 0 and logged as a version mismatch. *)
Theorem client_reads_twelve_bytes (e : endianness) (fd : Z) (rx : read_result) :
  SimpleClient.handle_client e fd rx
  = SimpleClient.handle_client e fd (RdData (SimpleClient.wire rx)) ∧
  length (SimpleClient.wire rx) = 12%nat ∧
  SimpleClient.handle_client e fd RdErr
  = [EvRead fd 12; EvPrintf (LogVersion 0); EvPrintf LogVersionMismatch] ∧
  SimpleClient.handle_client e fd (RdData [])
  = [EvRead fd 12; EvPrintf (LogVersion 0); EvPrintf LogVersionMismatch].
Proof.
  assert (∀ rx', SimpleClient.received e rx'
                 = SimpleClient.received e (RdData (SimpleClient.wire rx'))) as Hrec.
  { intros rx'. unfold SimpleClient.received.
    change (sizeof_proto_hdr_t + sizeof_int)%nat with 12%nat.
    by rewrite <- os_read_wire. }
  assert (∀ rx', SimpleClient.handle_client e fd rx'
                 = SimpleClient.handle_client e fd (RdData (SimpleClient.wire rx')))
    as Hall.
  { intros rx'. apply handle_client_fields; by rewrite <- Hrec. }
  split; [apply Hall|]. split.
  { destruct rx as [|bs]; [reflexivity|]. unfold SimpleClient.wire.
    rewrite length_take, length_app, length_replicate. lia. }
  assert (SimpleClient.handle_client e fd (RdData (replicate 12 x00))
          = [EvRead fd 12; EvPrintf (LogVersion 0); EvPrintf LogVersionMismatch])
    as Hzero.
  { unfold SimpleClient.handle_client.
    change (replicate 12 x00)
      with ([x00; x00; x00; x00; x00; x00; x00; x00; x00; x00; x00; x00] ++ []).
    destruct (received_fields e x00 x00 x00 x00 x00 x00 x00 x00 x00 x00 x00 x00 [])
      as (-> & _ & ->).
    reflexivity. }
  split.
  - rewrite (Hall RdErr). exact Hzero.
  - rewrite (Hall (RdData [])). exact Hzero.
Qed.

(** X19. Once [connect] has succeeded the client returns 0 whatever it
    receives, a mismatch included; it makes exactly one read, of twelve
    bytes, writes nothing, and closes its socket exactly once. *)
Theorem client_exit_zero_after_connect (e : endianness) (argc sock conn : Z)
    (rx : read_result) :
  2 ≤ argc ->
  sock ≠ -1 ->
  conn ≠ -1 ->
  (SimpleClient.main e argc sock conn rx).2 = 0 ∧
  exit_status (SimpleClient.main e argc sock conn rx).2 = 0 ∧
  read_calls (SimpleClient.main e argc sock conn rx).1 = [(sock, 12%nat)] ∧
  written (SimpleClient.main e argc sock conn rx).1 = [] ∧
  closed_fds (SimpleClient.main e argc sock conn rx).1 = [sock].
Proof.
  intros Hargc Hs Hc. unfold SimpleClient.main.
  rewrite bool_decide_eq_false_2 by lia.
  rewrite (bool_decide_eq_false_2 (sock = -1)) by done.
  rewrite (bool_decide_eq_false_2 (conn = -1)) by done.
  cbn [fst snd]. unfold SimpleClient.handle_client.
  repeat case_bool_decide; by repeat split.
Qed.

Lemma client_exit_zero_after_connect_witness :
  (SimpleClient.main LittleEndian 2 3 0 (RdData (frame 0 4 2))).2 = 0 ∧
  exit_status (SimpleClient.main LittleEndian 2 3 0 (RdData (frame 0 4 2))).2 = 0 ∧
  read_calls (SimpleClient.main LittleEndian 2 3 0 (RdData (frame 0 4 2))).1
  = [(3, 12%nat)] ∧
  written (SimpleClient.main LittleEndian 2 3 0 (RdData (frame 0 4 2))).1 = [] ∧
  closed_fds (SimpleClient.main LittleEndian 2 3 0 (RdData (frame 0 4 2))).1 = [3].
Proof.
  apply (client_exit_zero_after_connect LittleEndian 2 3 0 (RdData (frame 0 4 2)));
    [lia|discriminate|discriminate].
Defined.

(** X20. The handshake works between machines of any two byte orders: what
    [server.c] writes on a machine of one byte order is accepted as
    protocol v1 by the client on a machine of the other. *)
Theorem handshake_across_byte_orders (e_server e_client : endianness) (cfd fd : Z) :
  ∃ bs : list byte,
    written (SimpleServer.handle_client e_server cfd) = [bs] ∧
    SimpleClient.handle_client e_client fd (RdData bs)
    = [EvRead fd 12; EvPrintf LogConnectedV1].
Proof.
  exists (frame PROTO_HELLO 4 1). rewrite server_writes_frame.
  split; [reflexivity|].
  destruct (received_frame e_client 1 ltac:(lia)) as (Ht & _ & Hd).
  unfold SimpleClient.handle_client. rewrite Ht, Hd. reflexivity.
Qed.

End ClientMore.

Section DescriptorsMore.
Import SelectServer.
Implicit Types (tbl : list clientstate_t) (c : clientstate_t) (st : loop_state).





(** X22. A connection stored in a pass is watched from the next pass on:
    when [accept] returns a descriptor that was not in the set [select]
    reported and a slot is free, the descriptor is a member of the read set
    built for the next pass. *)
Theorem accepted_is_watched_next (listen_fd : Z) (o : os_iter) (st : loop_state)
    (ready : gset Z) (tr : list event) (st' : loop_state) :
  length (clientStates st) = MAX_CLIENTS ->
  sel_ready o = Some ready ->
  listen_fd ∈ ready ->
  acc_result o ≠ -1 ->
  acc_result o ∉ ready ->
  (occupied (clientStates st) < MAX_CLIENTS)%nat ->
  iteration listen_fd o st = (tr, Running st') ->
  acc_result o ∈ read_fds (build_read_fds listen_fd st').
Proof.
  intros Hlen Hsel Hl Ha Hnr Hocc. rewrite iteration_unfold, Hsel. cbv zeta.
  set (q := build_read_fds listen_fd st).
  set (rf := read_fds q ∩ ready).
  assert (listen_fd ∈ rf) as Hlrf by (by apply listener_in_query).
  pose proof (dispatch_listener_length listen_fd rf o _ Hlen) as Hlen1.
  destruct (dispatch_listener_cases listen_fd rf o (clientStates st) Hlen)
    as [[Hin _]|[(_ & Ha' & _)|[(_ & _ & _ & Hall & _)
       |(k & c & _ & _ & _ & Hk & Hkc & _ & _ & Hd)]]]; try done.
  { apply occupied_full in Hall. lia. }
  rewrite Hd in Hlen1 |- *. cbn [fst snd] in *. intros [= _ <-].
  destruct (build_read_fds_spec listen_fd
              (mk_loop_state
                 (dispatch_clients rf o
                    (<[k:=mk_clientstate (acc_result o) STATE_CONNECTED (buffer c)]>
                       (clientStates st))).1
                 rf (write_fds q ∩ ready) (nfds q)))
    as (_ & _ & Hmem & _).
  apply Hmem. right. cbn [clientStates].
  exists k, (mk_clientstate (acc_result o) STATE_CONNECTED (buffer c)).
  split; [done|]. split; [|by split].
  erewrite dispatch_clients_lookup; [|done|].
  2:{ apply list_lookup_insert_eq. by eapply lookup_lt_Some. }
  unfold serve, is_ready. cbn [fd].
  rewrite (bool_decide_eq_false_2 (acc_result o ∈ rf)); [by rewrite andb_false_r|].
  intros Hin. apply elem_of_intersection in Hin as [_ Hin]. by apply Hnr.
Qed.

Lemma accepted_is_watched_next_witness :
  acc_result (mk_os_iter (Some {[3]}) 5 (fun _ => RdErr))
  ∈ read_fds
      (build_read_fds 3
         (Scenario.state_of
            (iteration 3 (mk_os_iter (Some {[3]}) 5 (fun _ => RdErr))
               Scenario.one_client))).
Proof.
  apply (accepted_is_watched_next 3 (mk_os_iter (Some {[3]}) 5 (fun _ => RdErr))
           Scenario.one_client {[3]}
           (iteration 3 (mk_os_iter (Some {[3]}) 5 (fun _ => RdErr))
              Scenario.one_client).1).
  - by vm_compute.
  - reflexivity.
  - by apply elem_of_singleton.
  - discriminate.
  - intros H. apply elem_of_singleton in H. discriminate.
  - assert (occupied (clientStates Scenario.one_client) = 1%nat) as ->
      by (by vm_compute).
    vm_compute. lia.
  - unfold Scenario.state_of.
    assert (match (iteration 3 (mk_os_iter (Some {[3]}) 5 (fun _ => RdErr))
                     Scenario.one_client).2
            with Running _ => true | Exited _ => false end = true) as Hrun
      by (by vm_compute).
    destruct (iteration 3 (mk_os_iter (Some {[3]}) 5 (fun _ => RdErr))
                Scenario.one_client) as [tr [st'|code]]; [reflexivity|discriminate].
Defined.

End DescriptorsMore.
